(** * Verification of the set-structure benchmark harness

    The development embeds two source files:

    - [include/binary_tree.hpp]: the unbalanced binary search tree
      [pfp::binary_tree<dtype>] with its private class [node];
    - [query.cpp]: the replay loop [run_ops] that drives a query structure
      from a stream of integers.

    [dtype] is [int] in the only instantiation the program makes.  The tree
    compares values with [==] and [>] and never computes with them, so a
    value is a [Z] and no wrap-around can occur inside the tree. *)

From Stdlib Require Import ZArith List Permutation Lia Bool Ascii String.
From Stdlib Require DecimalString DecimalPos.
From stdpp Require Import gmap sorting.

#[local] Set Warnings "-register-all,-clear-no-such-hyp".
Local Open Scope Z_scope.

(** ** Free store

    [new] and [delete] are the only heap operations of the tree.  The free
    store is the set of live addresses, together with two logs that record
    every address handed out by [new] and every address given back to
    [delete], in program order. *)

Module store.

Definition addr := positive.

Record heap := Heap {
  live : gset addr;
  news : list addr;
  deletes : list addr
}.

Definition empty_heap : heap := Heap ∅ [] [].

(** [operator new]: the returned block is distinct from every live block. *)
Definition operator_new (h : heap) : addr * heap :=
  let a := fresh (live h) in
  (a, Heap ({[a]} ∪ live h) (news h ++ [a]) (deletes h)).

(** [operator delete]: releasing a block that is not live (a second release,
    or a pointer never returned by [new]) is undefined behaviour, rendered
    as [None]. *)
Definition operator_delete (a : addr) (h : heap) : option heap :=
  if decide (a ∈ live h)
  then Some (Heap (live h ∖ {[a]}) (news h) (deletes h ++ [a]))
  else None.

(** [h'] is [h] after the blocks [blocks] were obtained from [new], in
    that order, and nothing was released. *)
Definition allocated (h h' : heap) (blocks : list addr) : Prop :=
  live h' = list_to_set blocks ∪ live h ∧
  news h' = news h ++ blocks ∧
  deletes h' = deletes h ∧
  NoDup blocks ∧
  (∀ a, a ∈ blocks → a ∉ live h).

End store.

(** ** [namespace pfp]: the binary tree *)

Module pfp.
Import store.

(** [class binary_tree<dtype>::node].  A [node*] is [option node]:
    [nullptr] is [None], and a non-null pointer carries the address [self]
    of the node it points to together with the node's fields. *)
Inductive node : Type := Node {
  self : addr;
  val : Z;
  left_ : option node;
  right_ : option node
}.

(** [new node(value)]: [left] and [right] default to [nullptr]. *)
Definition new_node (value : Z) (h : heap) : node * heap :=
  let '(a, h') := operator_new h in (Node a value None None, h').

(** [node::insert] *)
Fixpoint node_insert (value : Z) (n : node) (h : heap) : node * heap :=
  match n with
  | Node a val left_ right_ =>
      if val =? value then (n, h)
      else if value >? val then
        match right_ with
        | None =>
            let '(r, h') := new_node value h in
            (Node a val left_ (Some r), h')
        | Some r =>
            let '(r', h') := node_insert value r h in
            (Node a val left_ (Some r'), h')
        end
      else
        match left_ with
        | None =>
            let '(l, h') := new_node value h in
            (Node a val (Some l) right_, h')
        | Some l =>
            let '(l', h') := node_insert value l h in
            (Node a val (Some l') right_, h')
        end
  end.

(** [node::query] *)
Fixpoint node_query (value : Z) (n : node) : bool :=
  match n with
  | Node _ val left_ right_ =>
      if value =? val then true
      else if value >? val then
        match right_ with
        | Some r => node_query value r
        | None => false
        end
      else
        match left_ with
        | Some l => node_query value l
        | None => false
        end
  end.

(** [delete (p)] for a non-null [node* p]: run [node::~node] on the node,
    which deletes the left child and then the right child when present,
    and then release the node's own block. *)
Fixpoint delete_node (n : node) (h : heap) : option heap :=
  match n with
  | Node a _ left_ right_ =>
      match
        match left_ with
        | Some l => delete_node l h
        | None => Some h
        end
      with
      | None => None
      | Some h1 =>
          match
            match right_ with
            | Some r => delete_node r h1
            | None => Some h1
            end
          with
          | None => None
          | Some h2 => operator_delete a h2
          end
      end
  end.

(** [class binary_tree]: the single field [root], initially [nullptr]. *)
Record binary_tree := BinaryTree { root : option node }.

Definition empty_tree : binary_tree := BinaryTree None.

(** [binary_tree::insert] *)
Definition insert (value : Z) (t : binary_tree) (h : heap)
  : binary_tree * heap :=
  match root t with
  | None =>
      let '(n, h') := new_node value h in (BinaryTree (Some n), h')
  | Some r =>
      let '(r', h') := node_insert value r h in (BinaryTree (Some r'), h')
  end.

(** [binary_tree::count]: the [bool] of [node::query], or [false], is
    converted to the [int] return type. *)
Definition count (value : Z) (t : binary_tree) : Z :=
  match root t with
  | Some r => Z.b2z (node_query value r)
  | None => Z.b2z false
  end.

(** [binary_tree::~binary_tree] *)
Definition destroy (t : binary_tree) (h : heap) : option heap :=
  match root t with
  | Some r => delete_node r h
  | None => Some h
  end.

(** *** What a tree holds

    These functions are not part of the program; they name what the
    statements below talk about. *)

(** [f] on the node a pointer leads to; nothing for [nullptr]. *)
Definition child {A} (f : node → list A) (p : option node) : list A :=
  match p with
  | Some n => f n
  | None => []
  end.

(** The values stored in the nodes of a subtree, one entry per node, the
    left subtree first. *)
Fixpoint values (n : node) : list Z :=
  match n with
  | Node _ v l r => child values l ++ v :: child values r
  end.

(** The nodes of a subtree, the subtree's own root first. *)
Fixpoint nodes (n : node) : list node :=
  match n with
  | Node _ _ l r => n :: child nodes l ++ child nodes r
  end.

(** The addresses of the nodes of a subtree, in the order in which
    [delete_node] releases them. *)
Fixpoint addrs (n : node) : list addr :=
  match n with
  | Node a _ l r => child addrs l ++ child addrs r ++ [a]
  end.

(** The ordering invariant, by recursion on the subtree. *)
Fixpoint bst (n : node) : Prop :=
  match n with
  | Node _ v l r =>
      (∀ y, y ∈ child values l → y < v) ∧
      (∀ y, y ∈ child values r → v < y) ∧
      match l with Some l' => bst l' | None => True end ∧
      match r with Some r' => bst r' | None => True end
  end.

(** The ordering invariant at one node, as the specification words it. *)
Definition ordered_at (m : node) : Prop :=
  (∀ y, y ∈ child values (left_ m) → y < val m) ∧
  (∀ y, y ∈ child values (right_ m) → val m < y).

(** The same notions for a whole tree. *)
Definition tree_values (t : binary_tree) : list Z := child values (root t).
Definition tree_nodes (t : binary_tree) : list node := child nodes (root t).
Definition tree_addrs (t : binary_tree) : list addr := child addrs (root t).
Definition tree_bst (t : binary_tree) : Prop :=
  match root t with
  | Some r => bst r
  | None => True
  end.

(** Induction on a node with the hypothesis for both children. *)
Section node_induction.
Variable P : node → Prop.

Definition on_child (p : option node) : Prop :=
  match p with
  | Some n => P n
  | None => True
  end.

Hypothesis P_node :
  ∀ a v l r, on_child l → on_child r → P (Node a v l r).

Fixpoint node_induction (n : node) : P n :=
  match n with
  | Node a v l r =>
      P_node a v l r
        match l return on_child l with
        | Some l' => node_induction l'
        | None => I
        end
        match r return on_child r with
        | Some r' => node_induction r'
        | None => I
        end
  end.
End node_induction.

(** A sequence of [insert] calls, in order, on a tree and a free store. *)
Definition insert_all (xs : list Z) (th : binary_tree * heap)
  : binary_tree * heap :=
  fold_left (fun th x => insert x (fst th) (snd th)) xs th.

(** The tree obtained from a freshly constructed [binary_tree]. *)
Definition build (xs : list Z) (h : heap) : binary_tree * heap :=
  insert_all xs (empty_tree, h).

End pfp.

(** ** The input stream

    [run_ops] reads its operations with [in >> val] and tests [in.good()].
    Both belong to the C++ standard library; they are rendered here as the
    standard describes them for a stream with the default flags ([skipws],
    [dec]) in the classic locale: the sentry skips white space, an optional
    sign and a run of decimal digits are consumed, [failbit] is set when
    there is no digit or the number does not fit an [int], and [eofbit] is
    set whenever the end of the stream is met while looking for a further
    character. *)

Module iostream.

Record istream := IStream {
  rdbuf : string;      (* the characters not read yet *)
  eofbit : bool;
  failbit : bool;
  badbit : bool
}.

(** A stream just opened on the given contents. *)
Definition stream_of (s : string) : istream := IStream s false false false.

(** [std::ios::good] *)
Definition good (i : istream) : bool :=
  negb (eofbit i || failbit i || badbit i).

Definition isspace (c : ascii) : bool :=
  let n := N_of_ascii c in
  ((n =? 32) || ((9 <=? n) && (n <=? 13)))%N.

Definition isdigit (c : ascii) : bool :=
  let n := N_of_ascii c in ((48 <=? n) && (n <=? 57))%N.

Definition digit_value (c : ascii) : Z := Z.of_N (N_of_ascii c - 48).

Fixpoint skip_ws (s : string) : string :=
  match s with
  | String c s' => if isspace c then skip_ws s' else s
  | EmptyString => s
  end.

(** The longest prefix of decimal digits, and what follows it. *)
Fixpoint span_digits (s : string) : list ascii * string :=
  match s with
  | String c s' =>
      if isdigit c
      then let '(ds, rest) := span_digits s' in (c :: ds, rest)
      else ([], s)
  | EmptyString => ([], s)
  end.

Definition decimal (ds : list ascii) : Z :=
  fold_left (fun acc c => 10 * acc + digit_value c) ds 0.

Definition INT_MAX : Z := 2147483647.
Definition INT_MIN : Z := -2147483648.

Definition at_end (s : string) : bool :=
  match s with EmptyString => true | String _ _ => false end.

(** The digits of the number, after the optional sign was consumed: the
    stream that is left and the value stored.  Without a digit the
    extraction fails and stores 0; a number outside the range of [int]
    fails and stores the nearest bound. *)
Definition extract_digits (negative : bool) (s1 : string) : istream * Z :=
  let '(ds, s2) := span_digits s1 in
  match ds with
  | [] => (IStream s2 (at_end s2) true false, 0)
  | _ :: _ =>
      let v := if negative then - decimal ds else decimal ds in
      if v <? INT_MIN then (IStream s2 (at_end s2) true false, INT_MIN)
      else if v >? INT_MAX then (IStream s2 (at_end s2) true false, INT_MAX)
      else (IStream s2 (at_end s2) false false, v)
  end.

(** [in >> val] for [int val]: the new stream and the new contents of
    [val].  On a stream that is not good the sentry sets [failbit] and
    nothing is read; when only white space is left it sets [failbit] and
    [eofbit]. *)
Definition extract_int (i : istream) (val : Z) : istream * Z :=
  if negb (good i) then
    (IStream (rdbuf i) (eofbit i) true (badbit i), val)
  else
    match skip_ws (rdbuf i) with
    | EmptyString => (IStream EmptyString true true false, val)
    | String c s' as s =>
        if Ascii.eqb c "-" then extract_digits true s'
        else if Ascii.eqb c "+" then extract_digits false s'
        else extract_digits false s
    end.

(** The line feed that ends a line of a text file. *)
Definition newline : string := String "010" EmptyString.

(** [out << v] for an [int] and for a [bool] (no [boolalpha]). *)
Definition print_int (v : Z) : string :=
  DecimalString.NilZero.string_of_int (Z.to_int v).

Definition print_bool (b : bool) : string := if b then "1" else "0".

End iostream.

(** ** [query.cpp]: the replay loop *)

Module query.
Import iostream.

(** What [run_ops] asks of its template parameter [query_structure]:
    [qs.insert(val)] and [qs.count(val)], the latter returning a number. *)
Class QueryStructure (Q : Type) := {
  qs_insert : Z → Q → Q;
  qs_count : Z → Q → Z
}.

(** [std::unordered_set<int>], the reference of validation mode. *)
Definition unordered_set_insert (v : Z) (s : gset Z) : gset Z := {[v]} ∪ s.
Definition unordered_set_count (v : Z) (s : gset Z) : Z :=
  if decide (v ∈ s) then 1 else 0.

#[export] Instance unordered_set_qs : QueryStructure (gset Z) :=
  {| qs_insert := unordered_set_insert; qs_count := unordered_set_count |}.

(** [pfp::binary_tree<int>], together with the free store its nodes live
    in. *)
#[export] Instance binary_tree_qs
  : QueryStructure (pfp.binary_tree * store.heap) :=
  {| qs_insert v th := pfp.insert v (fst th) (snd th);
     qs_count v th := pfp.count v (fst th) |}.

(** A defective structure, for the tests of validation mode: it forgets
    every insertion and answers 0 to every query. *)
Definition forgetful_qs : QueryStructure unit :=
  {| qs_insert _ q := q; qs_count _ _ := 0 |}.

(** The member calls made on the structure under test, in order. *)
Inductive call := call_insert (v : Z) | call_count (v : Z).

Section run_ops.
Context {Q : Type} `{QueryStructure Q}.
(** The template parameters [debug] and [validate]. *)
Variables debug validate : bool.

(** The variables of [run_ops] that outlive a loop iteration, the two
    output streams as the lines written to them (every output statement
    of [run_ops] ends with [std::endl]), and the log of member calls. *)
Record state := State {
  qs : Q;
  us : gset Z;
  insert : bool;
  cout : list string;
  cerr : list string;
  calls : list call
}.

Definition write_cout (line : string) (st : state) : state :=
  State (qs st) (us st) (insert st) (cout st ++ [line]) (cerr st) (calls st).
Definition write_cerr (line : string) (st : state) : state :=
  State (qs st) (us st) (insert st) (cout st) (cerr st ++ [line]) (calls st).
Definition set_insert (b : bool) (st : state) : state :=
  State (qs st) (us st) b (cout st) (cerr st) (calls st).
Definition log_call (c : call) (st : state) : state :=
  State (qs st) (us st) (insert st) (cout st) (cerr st) (calls st ++ [c]).
(** [qs.insert(val)] *)
Definition do_insert (val : Z) (st : state) : state :=
  log_call (call_insert val)
    (State (qs_insert val (qs st)) (us st) (insert st)
           (cout st) (cerr st) (calls st)).
(** [us.insert(val)] *)
Definition do_shadow_insert (val : Z) (st : state) : state :=
  State (qs st) (unordered_set_insert val (us st)) (insert st)
        (cout st) (cerr st) (calls st).
(** [qs.count(val)]: the value returned and the state with the call
    logged. *)
Definition do_count (val : Z) (st : state) : Z * state :=
  (qs_count val (qs st), log_call (call_count val) st).

(** How one iteration of the loop body ends: with the next iteration, or
    with [exit(status)]. *)
Inductive flow := Next (st : state) | Exit (status : Z) (st : state).

(** The structure under test and the reference give the same answer for
    [val]: the test [res != us.count(val)] is false. *)
Definition agrees (val : Z) (st : state) : Prop :=
  Z.b2z (negb (qs_count val (qs st) =? 0))
  = unordered_set_count val (us st).

(** The line written to [std::cerr] on a mismatch. *)
Definition validation_error (val : Z) (expected : bool) : string :=
  "Validation error: contains(" ++ print_int val
    ++ ") should be " ++ print_bool expected.

(** The [if constexpr (validate)] block of the query branch. *)
Definition validate_query (val : Z) (st : state) : flow :=
  let '(c, st1) := do_count val st in
  let res := negb (c =? 0) in
  if negb (Z.b2z res =? unordered_set_count val (us st1)) then
    Exit 1 (write_cerr (validation_error val (negb res)) st1)
  else Next st1.

(** The loop body after [val] has been read with the stream good. *)
Definition loop_body (val : Z) (st : state) : flow :=
  if val >=? 0 then
    if insert st then
      let st1 := do_insert val st in
      let st2 := if validate then do_shadow_insert val st1 else st1 in
      let st3 :=
        if debug
        then write_cout (" " ++ print_int val ++ " inserted") st2
        else st2 in
      Next st3
    else
      match (if validate then validate_query val st else Next st) with
      | Exit status st1 => Exit status st1
      | Next st1 =>
          let '(c, st2) := do_count val st1 in
          if debug then
            Next (write_cout
                    (print_int val ++ " : "
                       ++ (if negb (c =? 0) then "found" else "not found"))
                    st2)
          else Next (write_cout (print_int c) st2)
      end
  else
    if insert st then
      let st1 := if debug then write_cout "Enter queries" st else st in
      Next (set_insert false st1)
    else
      let st1 :=
        if debug then write_cout "Enter values to add" st else st in
      Next (set_insert true st1).

(** How [run_ops] ends: by [return], or inside [exit(status)]. *)
Inductive outcome :=
  Returned (st : state) | Exited (status : Z) (st : state).

(** [while (true)]: one unit of fuel per iteration. *)
Fixpoint run_loop (fuel : nat) (i : istream) (val : Z) (st : state)
  : option outcome :=
  match fuel with
  | O => None
  | S fuel' =>
      let '(i', val') := extract_int i val in
      if negb (good i') then Some (Returned st)
      else
        match loop_body val' st with
        | Next st' => run_loop fuel' i' val' st'
        | Exit status st' => Some (Exited status st')
        end
  end.

(** The state on entry to the loop. *)
Definition initial_state (q : Q) : state :=
  State q ∅ true (if debug then ["Enter values to add"%string] else [])
        [] [].

(** [run_ops(qs, in)].  [val] is declared without an initial value, so
    its first contents [val0] are arbitrary.  Every iteration that goes
    on consumes a digit, so one more unit of fuel than there are
    characters is enough. *)
Definition run_ops (q : Q) (i : istream) (val0 : Z) : option outcome :=
  run_loop (S (String.length (rdbuf i))) i val0 (initial_state q).

(** The status the process ends with: [exit]'s argument, or the
    [return 0] of [main] once [run_ops] has returned. *)
Definition exit_status (o : outcome) : Z :=
  match o with
  | Returned _ => 0
  | Exited status _ => status
  end.

Definition final_state (o : outcome) : state :=
  match o with
  | Returned st => st
  | Exited _ st => st
  end.

(** The values the loop body is run on: the integers read with the
    stream still good, in order. *)
Fixpoint tokens (fuel : nat) (i : istream) (val : Z) : list Z :=
  match fuel with
  | O => []
  | S fuel' =>
      let '(i', val') := extract_int i val in
      if negb (good i') then [] else val' :: tokens fuel' i' val'
  end.

(** The values [run_ops] gets to work on from a stream. *)
Definition read_all (i : istream) (val0 : Z) : list Z :=
  tokens (S (String.length (rdbuf i))) i val0.

(** The loop body run on a list of values, one after the other. *)
Fixpoint replay (vs : list Z) (st : state) : outcome :=
  match vs with
  | [] => Returned st
  | v :: vs' =>
      match loop_body v st with
      | Next st' => replay vs' st'
      | Exit status st' => Exited status st'
      end
  end.

End run_ops.

Arguments state Q : clear implicits.
Arguments flow Q : clear implicits.
Arguments outcome Q : clear implicits.

(** The state of a run on the binary tree in which the tree is ordered and
    holds the values of the reference. *)
Definition mirrors (st : state (pfp.binary_tree * store.heap)) : Prop :=
  pfp.tree_bst (qs st).1 ∧
  ∀ v, v ∈ pfp.tree_values (qs st).1 ↔ v ∈ us st.

End query.

(** ** Vocabulary for whole runs *)

Module harness.
Import iostream query.


(** What can be seen of a run from outside the structure under test: the
    exit status, the two output streams, the member calls and the mode. *)
Definition observe {Q : Type} (o : outcome Q)
  : Z * list string * list string * list call * bool :=
  (exit_status o, cout (final_state o), cerr (final_state o),
   calls (final_state o), insert (final_state o)).

(** The values passed to [qs.insert], in order. *)
Fixpoint inserted (cs : list call) : list Z :=
  match cs with
  | [] => []
  | call_insert v :: cs' => v :: inserted cs'
  | call_count _ :: cs' => inserted cs'
  end.

(** What a replay should print without debug narration: the values are
    gone through in order with the mode and the list of values inserted
    so far; a query gives a line, [1] when its value was inserted and [0]
    when not. *)
Fixpoint expected (vs : list Z) (mode : bool) (seen : list Z)
  : list string :=
  match vs with
  | [] => []
  | v :: vs' =>
      if v <? 0 then expected vs' (negb mode) seen
      else if mode then expected vs' mode (v :: seen)
      else print_bool (bool_decide (v ∈ seen)) :: expected vs' mode seen
  end.

(** The number of nodes on the longest path from a node down to a leaf:
    the deepest recursion of [node::insert] and [node::query] from that
    node. *)
Definition child_depth (f : pfp.node → nat) (p : option pfp.node) : nat :=
  match p with
  | Some n => f n
  | None => 0%nat
  end.

Fixpoint height (n : pfp.node) : nat :=
  match n with
  | pfp.Node _ _ l r => S (Nat.max (child_depth height l) (child_depth height r))
  end.

Definition tree_height (t : pfp.binary_tree) : nat :=
  child_depth height (pfp.root t).

(** Two states that differ only in the structure under test, the two
    structures being related by [R]. *)
Definition alike {Q1 Q2 : Type} (R : Q1 → Q2 → Prop)
    (st1 : state Q1) (st2 : state Q2) : Prop :=
  R (qs st1) (qs st2) ∧ us st1 = us st2 ∧ insert st1 = insert st2 ∧
  cout st1 = cout st2 ∧ cerr st1 = cerr st2 ∧ calls st1 = calls st2.

(** The tree is ordered and stores exactly the elements of the set. *)
Definition holds (th : pfp.binary_tree * store.heap) (s : gset Z) : Prop :=
  pfp.tree_bst th.1 ∧ ∀ v, v ∈ pfp.tree_values th.1 ↔ v ∈ s.

(** Two states of runs with and without validation that went the same
    way so far. *)
Definition same_run {Q : Type} (st1 st0 : state Q) : Prop :=
  qs st1 = qs st0 ∧ insert st1 = insert st0 ∧ cout st1 = cout st0.

End harness.

(** ** [query.cpp]: [select_qs] and [main] *)

Module cli.
Import store iostream query.

(** The part of the process [select_qs] works on: what was written to
    the two output streams so far, and the free store. *)
Record world := World {
  w_cout : list string;
  w_cerr : list string;
  w_heap : heap
}.

Definition write_err (line : string) (w : world) : world :=
  World (w_cout w) (w_cerr w ++ [line]) (w_heap w).

(** How a call ends: by returning to its caller, or inside
    [exit(status)]. *)
Inductive finish := returned (w : world) | exited (status : Z) (w : world).

(** The end of a call of [run_ops]: its output follows what was written
    before.  [h] is the free store at that point. *)
Definition after_run {Q : Type} (w : world) (o : outcome Q) (h : heap)
  : finish :=
  match o with
  | Returned st =>
      returned (World (w_cout w ++ cout st) (w_cerr w ++ cerr st) h)
  | Exited status st =>
      exited status (World (w_cout w ++ cout st) (w_cerr w ++ cerr st) h)
  end.

(** [std::set<int>]: for [insert] and [count] it is the same finite set
    of integers as [std::unordered_set<int>]. *)
Definition std_set_qs : QueryStructure (gset Z) := unordered_set_qs.

Section select_qs.
(** [pfp::vs] and [pfp::bv] come from headers that are not part of the
    sources at hand: [include/vs.hpp] and [include/bv.hpp].  They are
    taken as they are used: a type with [insert] and [count], the value
    of [pfp::vs<int> v;] and the value of [pfp::bv<int> bv(limit);]. *)
Context {vs bv : Type} (vs_qs : QueryStructure vs) (bv_qs : QueryStructure bv).
Variable vs_new : vs.
Variable bv_new : Z → bv.
(** The template parameters. *)
Variables debug verify : bool.

(** The choice made when no type was asked for.  [limit] is a
    [uint64_t]; it is converted to [double] for the comparison with
    [10e6], which is ten millions, and the conversion cannot change the
    result of this comparison. *)
Definition choose_type (type limit : Z) (separate_queries : bool) : Z :=
  if type =? 0 then
    if (limit >? 0) && (limit <? 10000000) then 5
    else if separate_queries then 4
    else 6
  else type.

(** A run on a structure whose memory is not followed. *)
Definition run_on {Q : Type} `{QueryStructure Q} (banner : string) (q : Q)
    (i : istream) (val0 : Z) (w : world) : option finish :=
  let w1 := if debug then write_err banner w else w in
  match run_ops debug verify q i val0 with
  | Some o => Some (after_run w1 o (w_heap w1))
  | None => None
  end.

(** [select_qs<debug, verify>(type, limit, separate_queries, in)].  The
    structure is a local variable of its branch: when [run_ops] returns
    the branch is left and the structure destroyed, which for the tree
    runs [~binary_tree]; [exit] ends the process without leaving the
    branch.  [None] stands for a run without result: the loop out of
    fuel, or a destructor releasing a block that is not live. *)
Definition select_qs (type limit : Z) (separate_queries : bool)
    (i : istream) (val0 : Z) (w : world) : option finish :=
  let type := choose_type type limit separate_queries in
  if type =? 1 then
    @run_on (gset Z) std_set_qs "Using std::set" ∅ i val0 w
  else if type =? 2 then
    @run_on (gset Z) unordered_set_qs "Using std::unordered_set" ∅ i val0 w
  else if type =? 3 then
    let w1 :=
      if debug then write_err "Using unbalanced binary tree" w else w in
    match run_ops debug verify (pfp.empty_tree, w_heap w1) i val0 with
    | Some (Returned st) =>
        match pfp.destroy (qs st).1 (qs st).2 with
        | Some h' => Some (after_run w1 (Returned st) h')
        | None => None
        end
    | Some (Exited status st) =>
        Some (after_run w1 (Exited status st) (qs st).2)
    | None => None
    end
  else if type =? 4 then
    @run_on vs vs_qs "Using sorted vector" vs_new i val0 w
  else
    @run_on bv bv_qs "Using bit vector" (bv_new limit) i val0 w.

End select_qs.

(** *** [main] *)

(** [help()]: the text, which [std::endl] follows. *)
Definition help_text : string :=
"
Program to test set data structures for positive ints.

usage:
    ./query [options] [input file]

Options:\n
-h             Outputs this message and terminates.
-t <number>    Type. 1 will use std::set, 2 will use std::unordered_set.
               Other options will be implementation dependent.
-l <number>    Limit. Highest number that will be inserted. Defaults to 2^31 - 1.
-s             If given, it will be assumed that all insertions will be done before any queries.
-v             Verify that the datastructure behaves the same way as std::unordered_set (slow).
-d             Debug mode. Run the program in interactive / verbose mode.
<input file>   Specify file to read insertions and queris from.
               If no input file is specified standard input will be used.

Accepted input is a sequence of non-negative integers in the [0..<limit>] range, with negative
integers switching between insertion and query modes. The program  will start in insert mode.

Examples:
   ./query -t 3 -d
         Interactively test the type 3 data structure (unbalanced binary tree by default).

   /usr/bin/time ./query -t 2 data.txt >> /dev/null
         Benchmark std::unordered set with operations from the data.txt file.

   /usr/bin/time ./query -s -l 10000 limited_sorted.txt >> /dev/null
         Benchmark data with guaranteed sorted and limited input sequence.
         Allows program logic to select data structure type.".

(** The text [strtol] and [strtoull] convert in base 10: white space, an
    optional sign and the longest run of digits, of which there must be
    one; what follows the digits is ignored. *)
Definition number_prefix (s : string) : option (bool * list ascii) :=
  match skip_ws s with
  | EmptyString => None
  | String c s' as t =>
      let '(negative, s1) :=
        if Ascii.eqb c "-" then (true, s')
        else if Ascii.eqb c "+" then (false, s')
        else (false, t) in
      match span_digits s1 with
      | ([], _) => None
      | (ds, _) => Some (negative, ds)
      end
  end.

Definition ULLONG_MAX : Z := 18446744073709551615.

(** [std::stoi]: [None] stands for the exception it throws,
    [std::invalid_argument] without a number and [std::out_of_range]
    for one that does not fit an [int]. *)
Definition stoi (s : string) : option Z :=
  match number_prefix s with
  | None => None
  | Some (negative, ds) =>
      let v := if negative : bool then - decimal ds else decimal ds in
      if (v <? INT_MIN) || (v >? INT_MAX) then None else Some v
  end.

(** [std::stoull]: as [strtoull] does, a number with a minus sign is
    negated in [unsigned long long]; [std::out_of_range] is thrown when
    the digits alone exceed [ULLONG_MAX]. *)
Definition stoull (s : string) : option Z :=
  match number_prefix s with
  | None => None
  | Some (negative, ds) =>
      let m := decimal ds in
      if m >? ULLONG_MAX then None
      else Some (if negative : bool then (- m) mod (ULLONG_MAX + 1) else m)
  end.

(** The local variables of [main] that the command line sets. *)
Record options := Options {
  type : Z;
  limit : Z;
  separate_queries : bool;
  input_file : nat;
  verify : bool;
  debug : bool
}.

(** Their initial values; [limit] is [(uint32_t(1) << 31) - 1]. *)
Definition defaults : options := Options 0 2147483647 false 0 false false.

(** How the loop over the command line ends. *)
Inductive parsed :=
  | Parsed (o : options)   (* the loop is left with [i >= argc] *)
  | Help                   (* [help(); exit(0);] *)
  | Thrown                 (* [stoull] or [stoi] throws, nothing catches *)
  | NullString.            (* [-l] or [-t] is last: [argv[argc]], a null
                              pointer, is made a [std::string] *)


(** The [while (i < argc)] loop of [main].  [rest] is [argv] from index
    [i] on. *)
Fixpoint parse_args (i : nat) (rest : list string) (o : options) : parsed :=
  match rest with
  | [] => Parsed o
  | s :: rest1 =>
      if String.eqb s "-l" then
        match rest1 with
        | [] => NullString
        | a :: rest2 =>
            match stoull a with
            | Some n =>
                parse_args (i + 2) rest2
                  (Options (type o) n (separate_queries o) (input_file o)
                     (verify o) (debug o))
            | None => Thrown
            end
        end
      else if String.eqb s "-s" then
        parse_args (i + 1) rest1
          (Options (type o) (limit o) true (input_file o)
             (verify o) (debug o))
      else if String.eqb s "-t" then
        match rest1 with
        | [] => NullString
        | a :: rest2 =>
            match stoi a with
            | Some n =>
                parse_args (i + 2) rest2
                  (Options n (limit o) (separate_queries o) (input_file o)
                     (verify o) (debug o))
            | None => Thrown
            end
        end
      else if String.eqb s "-v" then
        parse_args (i + 1) rest1
          (Options (type o) (limit o) (separate_queries o) (input_file o)
             true (debug o))
      else if String.eqb s "-h" then Help
      else if String.eqb s "-d" then
        parse_args (i + 1) rest1
          (Options (type o) (limit o) (separate_queries o) (input_file o)
             (verify o) true)
      else
        parse_args (i + 1) rest1
          (Options (type o) (limit o) (separate_queries o) i
             (verify o) (debug o))
  end.

(** How the process ends. *)
Inductive result :=
  | Ended (status : Z) (w : world)  (* [return] from [main], or [exit] *)
  | Terminated                      (* [std::terminate]: uncaught exception *)
  | Undefined.                      (* undefined behaviour, or no result *)

(** [std::ifstream in(name)]: a file that cannot be opened gives a
    stream with [failbit] set.  [fs] maps the names of the readable files
    to their contents. *)
Definition ifstream (fs : string → option string) (name : string)
  : istream :=
  match fs name with
  | Some contents => stream_of contents
  | None => IStream EmptyString false true false
  end.

Section main.
Context {vs bv : Type} (vs_qs : QueryStructure vs) (bv_qs : QueryStructure bv).
Variable vs_new : vs.
Variable bv_new : Z → bv.

(** [main(argc, argv)], [argv] holding the [argc] arguments, the name of
    the program first.  [stdin] is what [std::cin] holds, [val0] the
    indeterminate first contents of [val] in [run_ops], [h] the free
    store when [main] is entered. *)
Definition main (argv : list string) (fs : string → option string)
    (stdin : string) (val0 : Z) (h : heap) : result :=
  match parse_args 1 (tail argv) defaults with
  | Help => Ended 0 (World [help_text] [] h)
  | Thrown => Terminated
  | NullString => Undefined
  | Parsed o =>
      let w :=
        World []
          (if debug o
           then ["type = " ++ print_int (type o)
                   ++ ", limit = " ++ print_int (limit o)
                   ++ ", separate queries = "
                   ++ print_bool (separate_queries o)]%string
           else [])
          h in
      let i :=
        if (0 <? input_file o)%nat
        then ifstream fs (nth (input_file o) argv EmptyString)
        else stream_of stdin in
      match
        select_qs vs_qs bv_qs vs_new bv_new (debug o) (verify o)
          (type o) (limit o) (separate_queries o) i val0 w
      with
      | Some (returned w') => Ended 0 w'
      | Some (exited status w') => Ended status w'
      | None => Undefined
      end
  end.

End main.

End cli.

(** * Supporting lemmas *)

Import store iostream query harness cli.

(** ** The tree as a set *)

Section tree_facts.
Import pfp.

Lemma values_Node a v l r :
  values (Node a v l r) = child values l ++ v :: child values r.
Proof. reflexivity. Qed.

Lemma addrs_Node a v l r :
  addrs (Node a v l r) = child addrs l ++ child addrs r ++ [a].
Proof. reflexivity. Qed.

Lemma values_new_node x h : values (new_node x h).1 = [x].
Proof. reflexivity. Qed.

(** The case analysis of [node_insert] at a node. *)
Ltac insert_cases x v l r h :=
  cbn [node_insert];
  destruct (Z.eqb_spec v x) as [Heq|Hne];
  [| destruct (Z.gtb_spec x v) as [Hgt|Hle];
     [ destruct r as [c|];
       [destruct (node_insert x c h) as [c' h'] eqn:Hins|]
     | destruct l as [c|];
       [destruct (node_insert x c h) as [c' h'] eqn:Hins|] ] ].

Lemma values_node_insert x n h y :
  y ∈ values (node_insert x n h).1 ↔ y = x ∨ y ∈ values n.
Proof.
  induction n as [a v l r IHl IHr] using node_induction.
  insert_cases x v l r h; cbn [on_child] in *;
    try rewrite Hins in *; cbn [fst new_node operator_new] in *;
    rewrite ?values_Node; cbn [child values]; set_solver.
Qed.

Lemma bst_node_insert x n h : bst n → bst (node_insert x n h).1.
Proof.
  induction n as [a v l r IHl IHr] using node_induction.
  intros (Hl & Hr & Bl & Br).
  insert_cases x v l r h; cbn [fst on_child] in *.
  - by repeat split.
  - specialize (IHr Br). rewrite Hins in IHr.
    repeat split; try done.
    intros y Hy. cbn [child] in Hy.
    pose proof (proj1 (values_node_insert x c h y)) as Hv.
    rewrite Hins in Hv. destruct (Hv Hy) as [->|Hin]; [lia | by apply Hr].
  - repeat split; try done; try (by intros y Hy%elem_of_nil).
    intros y Hy. cbn in Hy. apply list_elem_of_singleton in Hy. lia.
  - specialize (IHl Bl). rewrite Hins in IHl.
    repeat split; try done.
    intros y Hy. cbn [child] in Hy.
    pose proof (proj1 (values_node_insert x c h y)) as Hv.
    rewrite Hins in Hv. destruct (Hv Hy) as [->|Hin]; [lia | by apply Hl].
  - repeat split; try done; try (by intros y Hy%elem_of_nil).
    intros y Hy. cbn in Hy. apply list_elem_of_singleton in Hy. lia.
Qed.

(** The case analysis of [node_query] at a node. *)
Ltac query_cases x v l r :=
  cbn [node_query];
  destruct (Z.eqb_spec x v) as [Heq|Hne];
  [| destruct (Z.gtb_spec x v) as [Hgt|Hle];
     [destruct r as [c|] | destruct l as [c|]] ].

Lemma node_query_spec x n :
  bst n → node_query x n = true ↔ x ∈ values n.
Proof.
  induction n as [a v l r IHl IHr] using node_induction.
  intros (Hl & Hr & Bl & Br). rewrite values_Node.
  query_cases x v l r; cbn [on_child child] in *.
  - set_solver.
  - rewrite (IHr Br). split; [set_solver|].
    intros [Hin|Hin]%elem_of_app; [apply Hl in Hin; lia|].
    apply elem_of_cons in Hin as [->|Hin]; [lia | done].
  - split; [done|].
    intros [Hin|Hin]%elem_of_app; [apply Hl in Hin; lia|].
    apply elem_of_cons in Hin as [->|Hin]; [lia | set_solver].
  - rewrite (IHl Bl). split; [set_solver|].
    intros [Hin|Hin]%elem_of_app; [done|].
    apply elem_of_cons in Hin as [->|Hin]; [lia | apply Hr in Hin; lia].
  - split; [done|].
    intros [Hin|Hin]%elem_of_app; [set_solver|].
    apply elem_of_cons in Hin as [->|Hin]; [lia | apply Hr in Hin; lia].
Qed.

(** Inserting a value that is stored already changes neither the tree
    nor the free store. *)
Lemma node_insert_present x n h :
  bst n → x ∈ values n → node_insert x n h = (n, h).
Proof.
  induction n as [a v l r IHl IHr] using node_induction.
  intros (Hl & Hr & Bl & Br). rewrite values_Node. intros Hx.
  assert (x = v ∨ (v < x ∧ x ∈ child values r)
          ∨ (x < v ∧ x ∈ child values l)) as Hcase.
  { apply elem_of_app in Hx as [Hx|Hx]; [right; right; auto|].
    apply elem_of_cons in Hx as [->|Hx]; [by left | right; left; auto]. }
  insert_cases x v l r h; cbn [on_child child] in *; try done.
  - destruct Hcase as [?|[[? Hin]|[? ?]]]; try lia.
    rewrite (IHr Br Hin) in Hins. by inversion Hins.
  - destruct Hcase as [?|[[? Hin]|[? ?]]]; try lia. set_solver.
  - destruct Hcase as [?|[[? ?]|[? Hin]]]; try lia.
    rewrite (IHl Bl Hin) in Hins. by inversion Hins.
  - destruct Hcase as [?|[[? ?]|[? Hin]]]; try lia. set_solver.
Qed.

Lemma bst_NoDup n : bst n → NoDup (values n).
Proof.
  induction n as [a v l r IHl IHr] using node_induction.
  intros (Hl & Hr & Bl & Br). rewrite values_Node.
  apply NoDup_app. split; [|split].
  - destruct l; cbn in *; [auto | constructor].
  - intros y Hy [->|Hin]%elem_of_cons; [apply Hl in Hy; lia|].
    apply Hl in Hy. apply Hr in Hin. lia.
  - apply NoDup_cons. split.
    + intros Hin%Hr. lia.
    + destruct r; cbn in *; [auto | constructor].
Qed.

(** The recursive invariant is the invariant at every node. *)
Lemma bst_nodes n : bst n ↔ ∀ m, m ∈ nodes n → ordered_at m.
Proof.
  induction n as [a v l r IHl IHr] using node_induction.
  cbn [bst nodes]. split.
  - intros (Hl & Hr & Bl & Br) m [->|Hm]%elem_of_cons; [by split|].
    apply elem_of_app in Hm as [Hm|Hm].
    + destruct l; cbn in *; [by apply IHl | by apply elem_of_nil in Hm].
    + destruct r; cbn in *; [by apply IHr | by apply elem_of_nil in Hm].
  - intros Hall.
    destruct (Hall (Node a v l r)) as [Hl Hr]; [by left|].
    repeat split; [done | done | |].
    + destruct l; cbn in *; [|done]. apply IHl. intros m Hm.
      apply Hall. right. apply elem_of_app. by left.
    + destruct r; cbn in *; [|done]. apply IHr. intros m Hm.
      apply Hall. right. apply elem_of_app. by right.
Qed.

(** *** The operations of [binary_tree] *)

Lemma insert_values x t h y :
  y ∈ tree_values (insert x t h).1 ↔ y = x ∨ y ∈ tree_values t.
Proof.
  destruct t as [[r|]]; unfold insert, tree_values; cbn [root].
  - destruct (node_insert x r h) as [r' h'] eqn:Hins. cbn [fst root child].
    pose proof (values_node_insert x r h y) as Hv. by rewrite Hins in Hv.
  - cbn. set_solver.
Qed.

Lemma insert_bst x t h : tree_bst t → tree_bst (insert x t h).1.
Proof.
  destruct t as [[r|]]; unfold insert, tree_bst; cbn [root].
  - intros Hb. pose proof (bst_node_insert x r h Hb) as Hb'.
    by destruct (node_insert x r h).
  - intros _. cbn. repeat split; try done; by intros y Hy%elem_of_nil.
Qed.

Lemma insert_present x t h :
  tree_bst t → x ∈ tree_values t → insert x t h = (t, h).
Proof.
  destruct t as [[r|]]; unfold insert, tree_bst, tree_values; cbn [root child].
  - intros Hb Hx. by rewrite node_insert_present.
  - by intros _ Hx%elem_of_nil.
Qed.

Lemma count_spec x t :
  tree_bst t → count x t = Z.b2z (bool_decide (x ∈ tree_values t)).
Proof.
  destruct t as [[r|]]; unfold count, tree_bst, tree_values; cbn [root child].
  - intros Hb. f_equal. apply eq_true_iff_eq.
    by rewrite (node_query_spec x r Hb), bool_decide_eq_true.
  - intros _. rewrite bool_decide_eq_false_2; [done | apply not_elem_of_nil].
Qed.

Lemma insert_all_app xs ys th :
  insert_all (xs ++ ys) th = insert_all ys (insert_all xs th).
Proof. apply fold_left_app. Qed.

Lemma build_snoc xs x h :
  build (xs ++ [x]) h = insert x (build xs h).1 (build xs h).2.
Proof. unfold build. by rewrite insert_all_app. Qed.

Lemma build_bst xs h : tree_bst (build xs h).1.
Proof.
  induction xs as [|x xs IH] using rev_ind; [done|].
  rewrite build_snoc. by apply insert_bst.
Qed.

Lemma build_values xs h y : y ∈ tree_values (build xs h).1 ↔ y ∈ xs.
Proof.
  induction xs as [|x xs IH] using rev_ind.
  - cbn. split; by intros ?%elem_of_nil.
  - rewrite build_snoc, insert_values, IH. set_solver.
Qed.

Lemma build_NoDup xs h : NoDup (tree_values (build xs h).1).
Proof.
  pose proof (build_bst xs h) as Hb. unfold tree_values, tree_bst in *.
  destruct (root (build xs h).1); cbn; [by apply bst_NoDup | constructor].
Qed.

Lemma count_build xs h v :
  count v (build xs h).1 = Z.b2z (bool_decide (v ∈ xs)).
Proof.
  rewrite count_spec by apply build_bst. f_equal.
  apply bool_decide_ext, build_values.
Qed.

End tree_facts.

(** ** The tree and the free store *)

Section store_facts.
Import pfp.

Lemma allocated_nil h : allocated h h [].
Proof.
  repeat split.
  - cbn. by rewrite union_empty_l_L.
  - by rewrite app_nil_r.
  - constructor.
  - by intros a Ha%elem_of_nil.
Qed.

Lemma allocated_new h :
  allocated h (operator_new h).2 [(operator_new h).1].
Proof.
  cbn. repeat split.
  - cbn. by rewrite union_empty_r_L.
  - apply NoDup_singleton.
  - intros a ->%list_elem_of_singleton. apply is_fresh.
Qed.

Lemma allocated_trans h h1 h2 b1 b2 :
  allocated h h1 b1 → allocated h1 h2 b2 → allocated h h2 (b1 ++ b2).
Proof.
  intros (L1 & N1 & D1 & U1 & F1) (L2 & N2 & D2 & U2 & F2).
  repeat split.
  - rewrite L2, L1, list_to_set_app_L. set_solver.
  - by rewrite N2, N1, app_assoc.
  - by rewrite D2.
  - apply NoDup_app. repeat split; [done | | done].
    intros a Ha Hb. apply (F2 a Hb). rewrite L1. set_solver.
  - intros a [Ha|Ha]%elem_of_app; [by apply F1|].
    intros Hl. apply (F2 a Ha). rewrite L1. set_solver.
Qed.

(** [node::insert] obtains at most one block, which becomes a node of the
    subtree; the other nodes stay. *)
Lemma node_insert_heap x n h :
  ∃ blocks,
    allocated h (node_insert x n h).2 blocks ∧
    addrs (node_insert x n h).1 ≡ₚ addrs n ++ blocks ∧
    length (values (node_insert x n h).1)
    = (length (values n) + length blocks)%nat.
Proof.
  induction n as [a v l r IHl IHr] using node_induction.
  cbn [node_insert].
  destruct (Z.eqb_spec v x) as [Heq|Hne];
    [| destruct (Z.gtb_spec x v) as [Hgt|Hle];
       [destruct r as [c|] | destruct l as [c|]] ];
    cbn [on_child] in *.
  - exists []. split; [apply allocated_nil|].
    cbn [fst]. rewrite app_nil_r. split; [done | cbn [length]; lia].
  - destruct IHr as (blocks & Ha & Hp & Hlen).
    destruct (node_insert x c h) as [c' h']. cbn [fst snd] in *.
    exists blocks. split; [done|].
    rewrite !addrs_Node, !values_Node. cbn [child]. split.
    + rewrite Hp. solve_Permutation.
    + rewrite !length_app. cbn [length]. rewrite Hlen. lia.
  - exists [(operator_new h).1]. split; [apply allocated_new|].
    cbn [new_node operator_new fst snd]. rewrite !addrs_Node, !values_Node.
    cbn [child addrs values app]. split.
    + solve_Permutation.
    + rewrite ?length_app. cbn [length]. lia.
  - destruct IHl as (blocks & Ha & Hp & Hlen).
    destruct (node_insert x c h) as [c' h']. cbn [fst snd] in *.
    exists blocks. split; [done|].
    rewrite !addrs_Node, !values_Node. cbn [child]. split.
    + rewrite Hp. solve_Permutation.
    + rewrite !length_app. cbn [length]. rewrite Hlen. lia.
  - exists [(operator_new h).1]. split; [apply allocated_new|].
    cbn [new_node operator_new fst snd]. rewrite !addrs_Node, !values_Node.
    cbn [child addrs values app]. split.
    + solve_Permutation.
    + rewrite ?length_app. cbn [length]. lia.
Qed.

Lemma insert_heap x t h :
  ∃ blocks,
    allocated h (insert x t h).2 blocks ∧
    tree_addrs (insert x t h).1 ≡ₚ tree_addrs t ++ blocks ∧
    length (tree_values (insert x t h).1)
    = (length (tree_values t) + length blocks)%nat.
Proof.
  destruct t as [[r|]]; unfold insert, tree_addrs, tree_values; cbn [root].
  - destruct (node_insert_heap x r h) as (blocks & Ha & Hp & Hlen).
    destruct (node_insert x r h) as [r' h']. by exists blocks.
  - exists [(operator_new h).1]. split; [apply allocated_new|]. by cbn.
Qed.

(** After any sequence of insertions the nodes of the tree are exactly
    the blocks obtained since the tree was constructed, one node per
    stored value. *)
Lemma build_heap xs h :
  ∃ blocks,
    allocated h (build xs h).2 blocks ∧
    tree_addrs (build xs h).1 ≡ₚ blocks ∧
    length (tree_values (build xs h).1) = length blocks.
Proof.
  induction xs as [|x xs IH] using rev_ind.
  - exists []. split; [apply allocated_nil | done].
  - destruct IH as (b1 & Ha1 & Hp1 & Hlen1). rewrite build_snoc.
    destruct (insert_heap x (build xs h).1 (build xs h).2)
      as (b2 & Ha2 & Hp2 & Hlen2).
    exists (b1 ++ b2). split; [by eapply allocated_trans|]. split.
    + by rewrite Hp2, Hp1.
    + rewrite Hlen2, Hlen1, length_app. done.
Qed.

(** Deleting a subtree whose nodes are distinct live blocks releases
    exactly these blocks, each of them once. *)
Lemma delete_node_spec n h :
  NoDup (addrs n) → (∀ a, a ∈ addrs n → a ∈ live h) →
  delete_node n h
  = Some (Heap (live h ∖ list_to_set (addrs n)) (news h)
               (deletes h ++ addrs n)).
Proof.
  revert h. induction n as [a v l r IHl IHr] using node_induction.
  intros h Hnd Hlive. rewrite addrs_Node in *.
  apply NoDup_app in Hnd as (Hndl & Hlr & Hnd).
  apply NoDup_app in Hnd as (Hndr & Hra & _).
  cbn [delete_node].
  assert (match l with Some c => delete_node c h | None => Some h end
          = Some (Heap (live h ∖ list_to_set (child addrs l)) (news h)
                       (deletes h ++ child addrs l))) as ->.
  { destruct l as [c|]; cbn [on_child child] in *.
    - apply IHl; [done|]. intros b Hb. apply Hlive. set_solver.
    - destruct h. cbn. f_equal. f_equal; [set_solver | by rewrite app_nil_r]. }
  set (h1 := Heap _ _ _).
  assert (match r with Some c => delete_node c h1 | None => Some h1 end
          = Some (Heap (live h1 ∖ list_to_set (child addrs r)) (news h1)
                       (deletes h1 ++ child addrs r))) as ->.
  { destruct r as [c|]; cbn [on_child child] in *.
    - apply IHr; [done|]. intros b Hb. subst h1. cbn [live].
      apply elem_of_difference. split; [apply Hlive; set_solver|].
      rewrite elem_of_list_to_set. intros Hbl. apply (Hlr b Hbl). set_solver.
    - destruct h1. cbn. f_equal. f_equal; [set_solver | by rewrite app_nil_r]. }
  subst h1. cbn [live news deletes]. unfold operator_delete. cbn [live news deletes].
  rewrite decide_True.
  - f_equal. f_equal; [| by rewrite <- !app_assoc].
    rewrite !list_to_set_app_L. set_solver.
  - rewrite !elem_of_difference, !elem_of_list_to_set. repeat split.
    + apply Hlive. set_solver.
    + intros Hal. apply (Hlr a Hal). set_solver.
    + intros Har. apply (Hra a Har). set_solver.
Qed.

End store_facts.

(** ** Reading the stream *)

Section stream_facts.

Lemma skip_ws_length s : (String.length (skip_ws s) ≤ String.length s)%nat.
Proof.
  induction s as [|c s IH]; cbn; [lia|].
  destruct (isspace c); cbn; lia.
Qed.

Lemma span_digits_length s :
  (length (span_digits s).1 + String.length (span_digits s).2
   = String.length s)%nat.
Proof.
  induction s as [|c s IH]; cbn; [done|].
  destruct (isdigit c); [|done].
  destruct (span_digits s) as [ds rest]. cbn in *. lia.
Qed.

Lemma extract_digits_consumes negative s :
  good (extract_digits negative s).1 = true →
  (String.length (rdbuf (extract_digits negative s).1)
   < String.length s)%nat.
Proof.
  unfold extract_digits.
  pose proof (span_digits_length s) as Hsp.
  destruct (span_digits s) as [[|d ds] s2]; cbn [fst snd] in *.
  - unfold good; cbn. by rewrite orb_true_r.
  - cbv zeta.
    destruct (_ <? INT_MIN); [unfold good; cbn; by rewrite orb_true_r|].
    destruct (_ >? INT_MAX); [unfold good; cbn; by rewrite orb_true_r|].
    cbn [fst rdbuf length] in *. lia.
Qed.

(** An extraction that leaves the stream good has consumed a digit. *)
Lemma extract_int_consumes i val :
  good (extract_int i val).1 = true →
  (String.length (rdbuf (extract_int i val).1)
   < String.length (rdbuf i))%nat.
Proof.
  unfold extract_int.
  destruct (good i); cbn [negb]; [|unfold good; cbn; by rewrite orb_true_r].
  pose proof (skip_ws_length (rdbuf i)) as Hws.
  destruct (skip_ws (rdbuf i)) as [|c s']; [done|].
  destruct (Ascii.eqb c "-");
    [|destruct (Ascii.eqb c "+")];
    intros Hg%extract_digits_consumes; cbn [String.length] in *; lia.
Qed.

End stream_facts.

(** ** The replay loop *)

Section run_ops_facts.
Context {Q : Type} `{QueryStructure Q}.
Variables debug validate : bool.

(** With enough fuel the loop ends, and it has run the loop body on the
    values read from the stream, in order. *)
Lemma run_loop_replay fuel i val st :
  (String.length (rdbuf i) < fuel)%nat →
  run_loop debug validate fuel i val st
  = Some (replay debug validate (tokens fuel i val) st).
Proof.
  revert i val st. induction fuel as [|fuel IH]; intros i val st Hlen; [lia|].
  cbn [run_loop tokens].
  pose proof (extract_int_consumes i val) as Hc.
  destruct (extract_int i val) as [i' val']. cbn [fst] in Hc.
  destruct (good i'); cbn [negb]; [|done].
  cbn [replay]. destruct (loop_body debug validate val' st); [|done].
  apply IH. specialize (Hc eq_refl). lia.
Qed.

Lemma run_ops_replay q i val0 :
  run_ops debug validate q i val0
  = Some (replay debug validate (read_all i val0)
            (initial_state debug q)).
Proof. unfold run_ops, read_all. apply run_loop_replay. lia. Qed.

Lemma replay_app vs ws st st' :
  replay debug validate vs st = Returned st' →
  replay debug validate (vs ++ ws) st = replay debug validate ws st'.
Proof.
  revert st. induction vs as [|v vs IH]; intros st; cbn [replay app].
  - by intros [= ->].
  - destruct (loop_body debug validate v st); [apply IH | done].
Qed.

Lemma geb_0_true v : 0 ≤ v → (v >=? 0) = true.
Proof. intros Hv. rewrite Z.geb_leb. by apply Z.leb_le. Qed.

Lemma geb_0_false v : v < 0 → (v >=? 0) = false.
Proof. intros Hv. rewrite Z.geb_leb. by apply Z.leb_gt. Qed.

Lemma iter_negb n b :
  Nat.iter n negb b = if Nat.even n then b else negb b.
Proof.
  induction n as [|n IH]; [done|].
  rewrite Nat.iter_succ, IH, Nat.even_succ, <- Nat.negb_even.
  by destruct (Nat.even n), b.
Qed.

(** A negative value only toggles the mode, and narrates it in debug
    mode. *)
Lemma loop_body_negative v st :
  v < 0 →
  loop_body debug validate v st
  = Next (set_insert (negb (insert st))
            (if debug
             then write_cout (if insert st then "Enter queries"
                              else "Enter values to add") st
             else st)).
Proof.
  intros Hv. unfold loop_body.
  rewrite geb_0_false by done.
  by destruct (insert st), debug.
Qed.

Lemma replay_negatives vs rest st :
  Forall (λ v, v < 0) vs →
  ∃ st' lines,
    replay debug validate (vs ++ rest) st = replay debug validate rest st' ∧
    insert st' = Nat.iter (length vs) negb (insert st) ∧
    qs st' = qs st ∧ us st' = us st ∧
    calls st' = calls st ∧ cerr st' = cerr st ∧
    cout st' = cout st ++ lines ∧
    length lines = (if debug then length vs else 0%nat).
Proof.
  intros Hneg. revert st.
  induction Hneg as [|v vs Hv _ IH]; intros st.
  - exists st, []. rewrite app_nil_r. by destruct debug.
  - cbn [app replay]. rewrite (loop_body_negative v st Hv).
    destruct (IH (set_insert (negb (insert st))
                    (if debug
                     then write_cout (if insert st then "Enter queries"
                                      else "Enter values to add") st
                     else st)))
      as (st' & lines & Hr & Hi & Hq & Hu & Hc & He & Ho & Hl).
    cbn [length]. rewrite Nat.iter_succ_r.
    destruct debug;
      cbn [insert set_insert write_cout qs us calls cerr cout] in *.
    + exists st',
        ((if insert st then "Enter queries" else "Enter values to add")%string
           :: lines).
      rewrite Ho, <- app_assoc. cbn [length]. by rewrite Hl.
    + by exists st', lines.
Qed.

(** The validation block on a query for which the two structures
    disagree, and on one for which they agree. *)
Lemma validate_query_mismatch v (st : state Q) :
  ¬ agrees v st →
  validate_query v st
  = Exit 1 (write_cerr (validation_error v (bool_decide (v ∈ us st)))
              (log_call (call_count v) st)).
Proof.
  unfold agrees, validate_query, do_count, unordered_set_count.
  cbn [us log_call]. intros Hne.
  destruct (Z.eqb_spec (Z.b2z (negb (qs_count v (qs st) =? 0)))
              (if decide (v ∈ us st) then 1 else 0)) as [Heq|_]; [done|].
  cbn [negb]. do 2 f_equal.
  destruct (decide (v ∈ us st)) as [Hin|Hin];
    [rewrite bool_decide_eq_true_2 by done
    |rewrite bool_decide_eq_false_2 by done];
    destruct (qs_count v (qs st) =? 0); cbn in *; done.
Qed.

Lemma validate_query_agrees v (st : state Q) :
  agrees v st → validate_query v st = Next (log_call (call_count v) st).
Proof.
  unfold agrees, validate_query, do_count. cbn [us log_call].
  intros ->. by rewrite Z.eqb_refl.
Qed.

(** The query branch in validation mode. *)
Lemma loop_body_mismatch v (st : state Q) :
  0 ≤ v → insert st = false → ¬ agrees v st →
  loop_body debug true v st
  = Exit 1 (write_cerr (validation_error v (bool_decide (v ∈ us st)))
              (log_call (call_count v) st)).
Proof.
  intros Hv Hq Hne. unfold loop_body.
  by rewrite geb_0_true, Hq, validate_query_mismatch.
Qed.

Lemma loop_body_query_agrees v (st : state Q) :
  0 ≤ v → insert st = false → agrees v st →
  loop_body debug true v st
  = Next (write_cout
            (if debug
             then print_int v ++ " : "
                    ++ (if negb (qs_count v (qs st) =? 0)
                        then "found" else "not found")
             else print_int (qs_count v (qs st)))
            (log_call (call_count v) (log_call (call_count v) st))).
Proof.
  intros Hv Hq Ha. unfold loop_body.
  rewrite geb_0_true, Hq, validate_query_agrees by done.
  unfold do_count. cbn [qs log_call]. by destruct debug.
Qed.

(** An iteration goes on without writing to [std::cerr], unless it is a
    query in validation mode on which the two structures disagree. *)
Lemma loop_body_cases v (st : state Q) :
  (∃ st1, loop_body debug validate v st = Next st1 ∧ cerr st1 = cerr st)
  ∨ (validate = true ∧ 0 ≤ v ∧ insert st = false ∧ ¬ agrees v st).
Proof.
  destruct (Z.lt_ge_cases v 0) as [Hneg|Hpos].
  { left. rewrite loop_body_negative by done.
    destruct debug; eexists; split; reflexivity. }
  destruct (insert st) eqn:Hmode.
  { left. unfold loop_body. rewrite geb_0_true, Hmode by lia.
    destruct validate, debug; eexists; split; reflexivity. }
  destruct validate eqn:Hval.
  - destruct (Z.eq_dec (Z.b2z (negb (qs_count v (qs st) =? 0)))
                (unordered_set_count v (us st))) as [Ha|Hna].
    + left. rewrite loop_body_query_agrees by done. by eexists.
    + by right.
  - left. unfold loop_body. rewrite geb_0_true, Hmode by lia.
    unfold do_count. destruct debug; eexists; split; reflexivity.
Qed.

End run_ops_facts.

Section validation_facts.
Context {Q : Type} `{QueryStructure Q}.
Variable debug : bool.

(** A run in which every query finds the two structures in agreement
    returns, and writes nothing to [std::cerr]. *)
Lemma replay_all_agree vs (st : state Q) :
  (∀ pre v post st1,
     vs = pre ++ v :: post →
     replay debug true pre st = Returned st1 →
     insert st1 = false → 0 ≤ v → agrees v st1) →
  ∃ st', replay debug true vs st = Returned st' ∧ cerr st' = cerr st.
Proof.
  revert st. induction vs as [|v vs IH]; intros st Hall.
  - by exists st.
  - cbn [replay].
    destruct (loop_body_cases debug true v st)
      as [(st1 & Hb & Herr)|(_ & Hv & Hq & Hna)].
    + rewrite Hb. destruct (IH st1) as (st' & Hr & Herr').
      * intros pre w post st2 -> Hpre. apply (Hall (v :: pre) w post st2).
        -- done.
        -- cbn [replay]. by rewrite Hb.
      * exists st'. split; [done | congruence].
    + destruct Hna. by apply (Hall [] v vs st).
Qed.

End validation_facts.

(** ** The tree under validation *)

Section tree_validation.
Variable debug : bool.

Lemma mirrors_agrees v st : mirrors st → agrees v st.
Proof.
  intros [Hb Hv]. unfold agrees, unordered_set_count.
  cbn [qs_count binary_tree_qs]. rewrite count_spec by done.
  destruct (decide (v ∈ us st)) as [Hin|Hin].
  - by rewrite bool_decide_eq_true_2 by by apply Hv.
  - rewrite bool_decide_eq_false_2; [done|]. by rewrite Hv.
Qed.

Lemma loop_body_mirrors v st :
  mirrors st →
  ∃ st', loop_body debug true v st = Next st' ∧ mirrors st' ∧
         cerr st' = cerr st.
Proof.
  intros Hm. destruct (Z.lt_ge_cases v 0) as [Hneg|Hpos].
  { rewrite loop_body_negative by done.
    destruct debug; eexists; (split; [reflexivity|]); by split. }
  destruct (insert st) eqn:Hmode.
  - unfold loop_body. rewrite geb_0_true, Hmode by lia.
    assert (mirrors (do_shadow_insert v (do_insert v st))) as Hm'.
    { destruct Hm as [Hb Hv]. split; cbn [qs us do_shadow_insert do_insert
        log_call qs_insert binary_tree_qs].
      - by apply insert_bst.
      - intros w. rewrite insert_values, Hv.
        unfold unordered_set_insert. set_solver. }
    destruct debug; eexists; (split; [reflexivity|]); by split.
  - rewrite loop_body_query_agrees by (done || by apply mirrors_agrees).
    eexists. split; [reflexivity|]. by split.
Qed.

(** Validation never stops a run on the binary tree. *)
Lemma replay_mirrors vs st :
  mirrors st →
  ∃ st', replay debug true vs st = Returned st' ∧ mirrors st' ∧
         cerr st' = cerr st.
Proof.
  revert st. induction vs as [|v vs IH]; intros st Hm; [by exists st|].
  cbn [replay].
  destruct (loop_body_mirrors v st Hm) as (st1 & -> & Hm1 & Herr1).
  destruct (IH st1 Hm1) as (st' & Hr & Hm' & Herr').
  exists st'. split; [done|]. split; [done | congruence].
Qed.

Lemma binary_tree_passes_validation h i val0 :
  ∃ st,
    run_ops debug true (pfp.empty_tree, h) i val0 = Some (Returned st) ∧
    cerr st = [].
Proof.
  destruct (replay_mirrors (read_all i val0)
              (initial_state debug (pfp.empty_tree, h)))
    as (st & Hr & _ & Herr).
  - split; [done|]. intros v. cbn. set_solver.
  - exists st. by rewrite run_ops_replay, Hr.
Qed.

End tree_validation.

(** * The properties of the specification *)

Section tree_properties.
Import pfp.

(** C1.  The tree is a set: after any sequence of insertions into an
    empty [binary_tree], [count v] returns 1 (true) exactly when [v] is
    among the inserted values and 0 (false) otherwise; on the empty tree
    it returns 0 for every [v]. *)
Theorem binary_tree_set_semantics (xs : list Z) (h : heap) (v : Z) :
  (count v (build xs h).1 = 1 ↔ In v xs) ∧
  (count v (build xs h).1 = 0 ↔ ¬ In v xs) ∧
  count v empty_tree = 0.
Proof.
  rewrite count_build, <- list_elem_of_In.
  destruct (bool_decide_reflect (v ∈ xs)); cbn; repeat split; try done.
Qed.

(** C4.  After any sequence of insertions every node of the tree is
    ordered: the values under its left child are strictly smaller than
    its own value, those under its right child strictly greater; and no
    value is stored in two nodes. *)
Theorem insert_keeps_bst_invariant (xs : list Z) (h : heap) :
  (∀ m, m ∈ tree_nodes (build xs h).1 →
     (∀ y, y ∈ child values (left_ m) → y < val m) ∧
     (∀ y, y ∈ child values (right_ m) → val m < y)) ∧
  NoDup (tree_values (build xs h).1).
Proof.
  pose proof (build_bst xs h) as Hb.
  unfold tree_nodes, tree_values, tree_bst in *.
  destruct (root (build xs h).1) as [r|]; cbn [child].
  - split; [|by apply bst_NoDup].
    intros m Hm. by apply (proj1 (bst_nodes r) Hb m Hm).
  - split; [by intros m Hm%elem_of_nil | constructor].
Qed.

(** C5.  Inserting again a value that was inserted before changes no
    answer of [count]; indeed it changes neither the tree nor the free
    store. *)
Theorem insert_idempotent (xs : list Z) (h : heap) (v w : Z) :
  In v xs →
  count w (insert v (build xs h).1 (build xs h).2).1
  = count w (build xs h).1 ∧
  insert v (build xs h).1 (build xs h).2 = build xs h.
Proof.
  intros Hv%list_elem_of_In.
  rewrite insert_present; [by destruct (build xs h) | apply build_bst |].
  by apply build_values.
Qed.

Lemma insert_idempotent_witness :
  In 3 [5; 3; 8] ∧
  count 3 (insert 3 (build [5; 3; 8] empty_heap).1
                    (build [5; 3; 8] empty_heap).2).1
  = count 3 (build [5; 3; 8] empty_heap).1.
Proof.
  split; [cbn; tauto|].
  apply (insert_idempotent [5; 3; 8] empty_heap 3 3). cbn. tauto.
Defined.

(** C6.  Two insertion sequences that are permutations of one another
    give trees on which [count] agrees for every value. *)
Theorem count_order_independent (xs ys : list Z) (h h' : heap) (v : Z) :
  Permutation xs ys →
  count v (build xs h).1 = count v (build ys h').1.
Proof.
  intros Hp. rewrite !count_build. f_equal.
  apply bool_decide_ext. by rewrite Hp.
Qed.

Lemma count_order_independent_witness :
  Permutation [5; 3; 8] [3; 8; 5] ∧
  count 8 (build [5; 3; 8] empty_heap).1
  = count 8 (build [3; 8; 5] empty_heap).1.
Proof.
  assert (Permutation [5; 3; 8] [3; 8; 5]) as Hp.
  { apply (Permutation_cons_app [3; 8] []). reflexivity. }
  split; [exact Hp|].
  exact (count_order_independent [5; 3; 8] [3; 8; 5]
           empty_heap empty_heap 8 Hp).
Defined.

(** C10.  Building a tree from any sequence of insertions and destroying
    it: the tree holds as many nodes as there are distinct values, each
    in a block of its own obtained from [new]; the destructor succeeds
    and releases exactly these blocks, each of them once, so that the
    free store is left as it was before the tree was built. *)
Theorem destroy_releases_every_node_once (xs : list Z) (h : heap) :
  ∃ blocks released h',
    allocated h (build xs h).2 blocks ∧
    tree_addrs (build xs h).1 ≡ₚ blocks ∧
    length blocks = length (tree_values (build xs h).1) ∧
    length blocks = length (remove_dups xs) ∧
    destroy (build xs h).1 (build xs h).2 = Some h' ∧
    deletes h' = deletes h ++ released ∧
    released ≡ₚ blocks ∧
    NoDup released ∧
    live h' = live h ∧
    news h' = news h ++ blocks.
Proof.
  destruct (build_heap xs h) as (blocks & Ha & Hp & Hlen).
  assert (length blocks = length (remove_dups xs)) as Hn.
  { rewrite <- Hlen. apply Permutation_length, NoDup_Permutation.
    - apply build_NoDup.
    - apply NoDup_remove_dups.
    - intros y. by rewrite build_values, elem_of_remove_dups. }
  destruct Ha as (Hl & Hnews & Hd & Hnd & Hfresh).
  unfold destroy, tree_addrs in *.
  destruct (root (build xs h).1) as [r|]; cbn [child] in *.
  - exists blocks, (addrs r). eexists. split; [by repeat split|].
    split; [done|]. split; [done|]. split; [done|].
    split; [apply delete_node_spec|].
    + by rewrite Hp.
    + intros a Ha. rewrite Hl, elem_of_union, elem_of_list_to_set, <- Hp.
      by left.
    + cbn [deletes live news]. rewrite Hd.
      split; [done|]. split; [done|]. split; [by rewrite Hp|].
      split; [|done].
      rewrite Hl. apply set_eq. intros a.
      rewrite elem_of_difference, elem_of_union, !elem_of_list_to_set, Hp.
      specialize (Hfresh a). tauto.
  - apply Permutation_nil_l in Hp. subst blocks.
    exists [], [], (build xs h).2. split; [by repeat split|].
    split; [done|]. split; [done|]. split; [done|]. split; [done|].
    split; [by rewrite app_nil_r|]. split; [done|].
    split; [constructor|]. split; [|done].
    rewrite Hl. cbn. by rewrite union_empty_l_L.
Qed.

End tree_properties.

Section replay_properties.

(** C3.  On the stream [5 3 8 -1 3 99 -1], with debug and validation
    off, [run_ops] on a [binary_tree] inserts 5, 3 and 8, then queries 3
    and 99, and writes exactly the lines [1] and [0] to [std::cout];
    the same holds when the stream ends with a line feed. *)
Theorem replay_literal_stream (val0 : Z) :
  (∃ st,
     run_ops false false (pfp.empty_tree, empty_heap)
       (stream_of "5 3 8 -1 3 99 -1") val0 = Some (Returned st) ∧
     calls st = [call_insert 5; call_insert 3; call_insert 8;
                 call_count 3; call_count 99] ∧
     cout st = ["1"%string; "0"%string] ∧ cerr st = []) ∧
  (∃ st,
     run_ops false false (pfp.empty_tree, empty_heap)
       (stream_of ("5 3 8 -1 3 99 -1" ++ newline)) val0
     = Some (Returned st) ∧
     calls st = [call_insert 5; call_insert 3; call_insert 8;
                 call_count 3; call_count 99] ∧
     cout st = ["1"%string; "0"%string] ∧ cerr st = []).
Proof.
  split; eexists; (split; [vm_compute; reflexivity|]); repeat split.
Qed.

(** C2, the behaviour of the code on a stream whose last integer is not
    followed by any character.  On [3 -1 3] the third extraction stores
    3 without setting [failbit], but it meets the end of the stream and
    sets [eofbit]; [run_ops] then returns before the loop body, so the
    query is not made and nothing is written.  With a line feed after
    the last integer the query is made and [1] is written. *)
Theorem last_integer_without_delimiter_is_dropped (val0 : Z) :
  extract_int (stream_of " 3") (-1) = (IStream EmptyString true false false, 3) ∧
  read_all (stream_of "3 -1 3") val0 = [3; -1] ∧
  (∃ st,
     run_ops false false (pfp.empty_tree, empty_heap)
       (stream_of "3 -1 3") val0 = Some (Returned st) ∧
     calls st = [call_insert 3] ∧ cout st = []) ∧
  (∃ st,
     run_ops false false (pfp.empty_tree, empty_heap)
       (stream_of ("3 -1 3" ++ newline)) val0 = Some (Returned st) ∧
     calls st = [call_insert 3; call_count 3] ∧ cout st = ["1"%string]).
Proof.
  split; [reflexivity|]. split; [reflexivity|].
  split; eexists; (split; [vm_compute; reflexivity|]); repeat split.
Qed.

(** A run of negative values that reach the loop body toggles the mode
    once per value, whatever the values are: after the run the mode is
    the mode before it toggled as many times as the run is long, hence
    unchanged when the length is even; the structure under test, the
    reference and the call log are as before the run, so no insertion
    and no query was made.  Only debug mode writes anything, one line of
    narration per value. *)
Theorem negative_values_toggle_mode {Q : Type} `{QueryStructure Q}
    (debug validate : bool) (q : Q) (i : istream) (val0 : Z)
    (pre vs rest : list Z) (st : state Q) :
  read_all i val0 = pre ++ vs ++ rest →
  replay debug validate pre (initial_state debug q) = Returned st →
  Forall (λ v, v < 0) vs →
  ∃ st' lines,
    run_ops debug validate q i val0
    = Some (replay debug validate rest st') ∧
    insert st' = Nat.iter (length vs) negb (insert st) ∧
    insert st' = (if Nat.even (length vs) then insert st
                  else negb (insert st)) ∧
    qs st' = qs st ∧ us st' = us st ∧ calls st' = calls st ∧
    cerr st' = cerr st ∧
    cout st' = cout st ++ lines ∧
    length lines = (if debug then length vs else 0%nat).
Proof.
  intros Hread Hpre Hneg.
  destruct (replay_negatives debug validate vs rest st Hneg)
    as (st' & lines & Hr & Hi & Hrest).
  exists st', lines.
  rewrite run_ops_replay, Hread, (replay_app _ _ _ _ _ _ Hpre), Hr.
  split; [done|]. split; [done|]. split; [|done].
  by rewrite Hi, iter_negb.
Qed.

Lemma negative_values_toggle_mode_witness :
  ∃ st' lines,
    run_ops false false (pfp.empty_tree, empty_heap)
      (stream_of "5 -1 -20 -300 5 ") 0
    = Some (replay false false [5] st') ∧
    insert st' = Nat.iter 3 negb true ∧
    insert st' = false ∧
    qs st' = pfp.insert 5 pfp.empty_tree empty_heap ∧
    us st' = ∅ ∧ calls st' = [call_insert 5] ∧
    cerr st' = [] ∧
    cout st' = [] ++ lines ∧
    length lines = 0%nat.
Proof.
  apply (negative_values_toggle_mode false false
           (pfp.empty_tree, empty_heap)
           (stream_of "5 -1 -20 -300 5 ") 0 [5] [-1; -20; -300] [5]
           (State (pfp.insert 5 pfp.empty_tree empty_heap) ∅ true
              [] [] [call_insert 5])).
  - vm_compute. reflexivity.
  - vm_compute. reflexivity.
  - repeat constructor.
Defined.

(** C7, the behaviour of the code on a stream that ends with a negative
    integer.  On [5 -1 -2] the extraction of [-2] stores -2 without
    setting [failbit], but it meets the end of the stream and sets
    [eofbit]; [run_ops] returns before the loop body, so the run of two
    negative integers toggles the mode once only: the mode stays QUERY
    and debug mode narrates one toggle.  With a line feed after [-2] the
    mode is toggled twice, back to INSERT, and both toggles are
    narrated. *)
Theorem last_negative_integer_does_not_toggle (val0 : Z) :
  extract_int (stream_of " -2") (-1)
  = (IStream EmptyString true false false, -2) ∧
  read_all (stream_of "5 -1 -2") val0 = [5; -1] ∧
  (∃ st,
     run_ops true false (pfp.empty_tree, empty_heap)
       (stream_of "5 -1 -2") val0 = Some (Returned st) ∧
     insert st = false ∧
     cout st = ["Enter values to add"%string; " 5 inserted"%string;
                "Enter queries"%string]) ∧
  (∃ st,
     run_ops true false (pfp.empty_tree, empty_heap)
       (stream_of ("5 -1 -2" ++ newline)) val0 = Some (Returned st) ∧
     insert st = true ∧
     cout st = ["Enter values to add"%string; " 5 inserted"%string;
                "Enter queries"%string; "Enter values to add"%string]).
Proof.
  split; [reflexivity|]. split; [reflexivity|].
  split; eexists; (split; [vm_compute; reflexivity|]); repeat split.
Qed.

End replay_properties.

Section validation_properties.

(** C8.  Validation mode, in three parts.
    (1) The first query on which the structure under test and the
    reference disagree ends the process with [exit(1)]: the query is
    counted once, one line is written to [std::cerr], naming the value
    and the answer that was expected (the reference's, the negation of
    the answer given), nothing is written to [std::cout], and the rest
    of the stream is not read.
    (2) On the stream [7 -1 7 -1] a structure that answers 0 for 7
    after 7 was inserted is stopped in this way, with the line
    [Validation error: contains(7) should be 1].
    (3) A run in which every query finds the two in agreement returns,
    the exit status is 0 and nothing is written to [std::cerr]. *)
Theorem validation_mismatch_aborts {Q : Type} `{QueryStructure Q}
    (debug : bool) :
  (∀ (q : Q) i val0 pre v post (st : state Q),
     read_all i val0 = pre ++ v :: post →
     replay debug true pre (initial_state debug q) = Returned st →
     insert st = false → 0 ≤ v → ¬ agrees v st →
     ∃ st',
       run_ops debug true q i val0 = Some (Exited 1 st') ∧
       exit_status (Exited 1 st') = 1 ∧
       cerr st'
       = cerr st ++ [validation_error v (bool_decide (v ∈ us st))] ∧
       bool_decide (v ∈ us st) = (qs_count v (qs st) =? 0) ∧
       cout st' = cout st ∧
       calls st' = calls st ++ [call_count v] ∧
       qs st' = qs st) ∧
  (∀ (q : Q) val0,
     qs_count 7 (qs_insert 7 q) = 0 →
     ∃ st',
       run_ops debug true q (stream_of "7 -1 7 -1") val0
       = Some (Exited 1 st') ∧
       cerr st' = ["Validation error: contains(7) should be 1"%string] ∧
       calls st' = [call_insert 7; call_count 7]) ∧
  (∀ (q : Q) i val0,
     (∀ pre v post (st : state Q),
        read_all i val0 = pre ++ v :: post →
        replay debug true pre (initial_state debug q) = Returned st →
        insert st = false → 0 ≤ v → agrees v st) →
     ∃ st',
       run_ops debug true q i val0 = Some (Returned st') ∧
       exit_status (Returned st') = 0 ∧
       cerr st' = []).
Proof.
  split; [|split].
  - intros q i val0 pre v post st Hread Hpre Hmode Hv Hna.
    eexists. rewrite run_ops_replay, Hread.
    rewrite (replay_app _ _ _ _ _ _ Hpre). cbn [replay].
    rewrite loop_body_mismatch by done.
    split; [reflexivity|]. repeat split.
    unfold agrees, unordered_set_count in Hna.
    destruct (decide (v ∈ us st));
      [rewrite bool_decide_eq_true_2 by done
      |rewrite bool_decide_eq_false_2 by done];
      destruct (qs_count v (qs st) =? 0); cbn in *; done.
  - intros q val0 Hforget.
    assert (replay debug true [7; -1] (initial_state debug q)
            = Returned
                (State (qs_insert 7 q) (unordered_set_insert 7 ∅) false
                   (if debug
                    then ["Enter values to add"; " 7 inserted";
                          "Enter queries"]%string
                    else [])
                   [] [call_insert 7])) as Hpre
      by (destruct debug; reflexivity).
    eexists. rewrite run_ops_replay.
    replace (read_all (stream_of "7 -1 7 -1") val0) with ([7; -1] ++ [7])
      by (vm_compute; reflexivity).
    rewrite (replay_app _ _ _ _ _ _ Hpre). cbn [replay].
    rewrite loop_body_mismatch.
    + split; [reflexivity|]. split; [|reflexivity].
      cbn [cerr write_cerr log_call us app].
      rewrite bool_decide_eq_true_2; [reflexivity|].
      unfold unordered_set_insert. set_solver.
    + lia.
    + reflexivity.
    + unfold agrees. cbn [qs us]. rewrite Hforget.
      unfold unordered_set_count, unordered_set_insert.
      rewrite decide_True by set_solver. done.
  - intros q i val0 Hall.
    destruct (replay_all_agree debug (read_all i val0)
                (initial_state debug q) Hall) as (st' & Hr & Herr).
    exists st'. rewrite run_ops_replay, Hr. by destruct debug.
Qed.

Lemma validation_mismatch_aborts_witness :
  (∃ st',
     @run_ops unit forgetful_qs false true tt (stream_of "7 -1 7 9 ") 0
     = Some (Exited 1 st') ∧
     exit_status (Exited 1 st') = 1 ∧
     cerr st' = [] ++ [validation_error 7 (bool_decide (7 ∈ ({[7]} : gset Z)))] ∧
     bool_decide (7 ∈ ({[7]} : gset Z)) = (0 =? 0) ∧
     cout st' = [] ∧
     calls st' = [call_insert 7] ++ [call_count 7] ∧
     qs st' = tt) ∧
  (∃ st',
     @run_ops unit forgetful_qs false true tt (stream_of "7 -1 7 -1") 0
     = Some (Exited 1 st') ∧
     cerr st' = ["Validation error: contains(7) should be 1"%string] ∧
     calls st' = [call_insert 7; call_count 7]) ∧
  (∃ st',
     run_ops false true (∅ : gset Z) (stream_of "5 -1 5 6 ") 0
     = Some (Returned st') ∧
     exit_status (Returned st') = 0 ∧
     cerr st' = []).
Proof.
  destruct (@validation_mismatch_aborts unit forgetful_qs false)
    as (Hfirst & Hliteral & _).
  destruct (@validation_mismatch_aborts (gset Z) unordered_set_qs false)
    as (_ & _ & Hclean).
  split; [|split].
  - destruct (Hfirst tt (stream_of "7 -1 7 9 ") 0 [7; -1] 7 [9]
                (@State unit tt {[7]} false [] [] [call_insert 7]))
      as (st' & Hrun & Hstatus & Herr & Hexp & Hout & Hcalls & Hqs).
    + vm_compute. reflexivity.
    + vm_compute. reflexivity.
    + reflexivity.
    + lia.
    + vm_compute. discriminate.
    + exists st'. repeat split; assumption.
  - apply (Hliteral tt 0). reflexivity.
  - apply (Hclean ∅ (stream_of "5 -1 5 6 ") 0).
    intros pre v post st Hsplit Hpre Hmode Hv.
    change (read_all (stream_of "5 -1 5 6 ") 0) with [5; -1; 5; 6] in Hsplit.
    destruct pre as [|a0 [|a1 [|a2 [|a3 pre]]]];
      cbn [app] in Hsplit; simplify_eq;
      try lia; try (by destruct pre);
      vm_compute in Hpre; injection Hpre as <-;
      try discriminate Hmode;
      vm_compute; reflexivity.
Defined.

(** C9.  With validation on and debug off, a query that passes the
    cross-check still writes its result line to [std::cout], and
    [count] is called twice on the structure under test: once for the
    comparison and once for the line.  The line is the number [count]
    returns; for a structure whose [count] is 0 or 1, as
    [binary_tree]'s is, it is [0] or [1] and is the reference's
    answer. *)
Theorem validated_query_prints_and_counts_twice
    {Q : Type} `{QueryStructure Q}
    (q : Q) (i : istream) (val0 : Z) (pre : list Z) (v : Z)
    (post : list Z) (st : state Q) :
  read_all i val0 = pre ++ v :: post →
  replay false true pre (initial_state false q) = Returned st →
  insert st = false → 0 ≤ v → agrees v st →
  ∃ st',
    loop_body false true v st = Next st' ∧
    run_ops false true q i val0 = Some (replay false true post st') ∧
    cout st' = cout st ++ [print_int (qs_count v (qs st))] ∧
    calls st' = calls st ++ [call_count v; call_count v] ∧
    cerr st' = cerr st ∧ qs st' = qs st ∧ us st' = us st ∧
    insert st' = false ∧
    (0 ≤ qs_count v (qs st) ≤ 1 →
     print_int (qs_count v (qs st))
     = print_bool (bool_decide (v ∈ us st))) ∧
    (∀ th : pfp.binary_tree * heap, 0 ≤ qs_count v th ≤ 1).
Proof.
  intros Hread Hpre Hmode Hv Ha.
  eexists. split; [by apply loop_body_query_agrees|].
  rewrite run_ops_replay, Hread, (replay_app _ _ _ _ _ _ Hpre).
  cbn [replay]. rewrite loop_body_query_agrees by done.
  split; [reflexivity|].
  cbn [cout calls cerr qs us insert write_cout log_call].
  rewrite <- app_assoc.
  split; [done|]. split; [done|]. split; [done|]. split; [done|].
  split; [done|]. split; [done|]. split.
  - unfold agrees, unordered_set_count in Ha. intros Hc.
    assert (qs_count v (qs st) = 0 ∨ qs_count v (qs st) = 1) as [Hz|Hz]
      by lia; rewrite Hz in *; cbn in Ha;
      destruct (decide (v ∈ us st));
      try discriminate Ha;
      [rewrite bool_decide_eq_false_2 by done
      |rewrite bool_decide_eq_true_2 by done]; reflexivity.
  - intros [t h]. cbn [qs_count binary_tree_qs fst]. unfold pfp.count.
    destruct (pfp.root t) as [r|]; [destruct (pfp.node_query v r)|];
      cbn; lia.
Qed.

Lemma validated_query_prints_and_counts_twice_witness :
  ∃ st',
    loop_body false true 5
      (State (pfp.insert 5 pfp.empty_tree empty_heap) {[5]} false
         [] [] [call_insert 5]) = Next st' ∧
    run_ops false true (pfp.empty_tree, empty_heap)
      (stream_of "5 -1 5 6 ") 0 = Some (replay false true [6] st') ∧
    cout st' = [] ++ [print_int 1] ∧
    calls st' = [call_insert 5] ++ [call_count 5; call_count 5] ∧
    cerr st' = [] ∧
    qs st' = pfp.insert 5 pfp.empty_tree empty_heap ∧
    us st' = {[5]} ∧
    insert st' = false ∧
    (0 ≤ 1 ≤ 1 → print_int 1 = print_bool (bool_decide (5 ∈ ({[5]} : gset Z)))) ∧
    (∀ th : pfp.binary_tree * heap, 0 ≤ qs_count 5 th ≤ 1).
Proof.
  destruct (validated_query_prints_and_counts_twice
              (pfp.empty_tree, empty_heap) (stream_of "5 -1 5 6 ") 0
              [5; -1] 5 [6]
              (State (pfp.insert 5 pfp.empty_tree empty_heap) {[5]} false
                 [] [] [call_insert 5])) as [st' Hst'].
  - vm_compute. reflexivity.
  - vm_compute. reflexivity.
  - reflexivity.
  - lia.
  - vm_compute. reflexivity.
  - exists st'. exact Hst'.
Defined.

End validation_properties.

(** * Further properties of the replay loop *)

Section reading.

Lemma tokens_fuel f1 f2 i val :
  (String.length (rdbuf i) < f1)%nat → (String.length (rdbuf i) < f2)%nat →
  tokens f1 i val = tokens f2 i val.
Proof.
  revert f2 i val. induction f1 as [|f1 IH]; intros [|f2] i val H1 H2;
    try lia.
  cbn [tokens]. pose proof (extract_int_consumes i val) as Hc.
  destruct (extract_int i val) as [i' val']. cbn [fst] in Hc.
  destruct (good i'); cbn [negb]; [|done].
  specialize (Hc eq_refl). f_equal. apply IH; lia.
Qed.

(** One step of reading. *)
Lemma read_all_unfold i val :
  read_all i val
  = (if good (extract_int i val).1
     then (extract_int i val).2
            :: read_all (extract_int i val).1 (extract_int i val).2
     else []).
Proof.
  unfold read_all at 1. cbn [tokens].
  pose proof (extract_int_consumes i val) as Hc.
  destruct (extract_int i val) as [i' val']. cbn [fst snd] in *.
  destruct (good i'); cbn [negb]; [|done].
  specialize (Hc eq_refl). f_equal. unfold read_all. apply tokens_fuel; lia.
Qed.

End reading.

Section reading_bounds.





(** X2.  A stream that is not good when [run_ops] is entered (a file
    that could not be opened), an empty stream and a stream of white
    space only give no value at all: [run_ops] returns from the first
    iteration, with no member call and nothing written except the
    banner of debug mode. *)
Theorem nothing_to_read {Q : Type} `{QueryStructure Q}
    (debug validate : bool) (q : Q) (i : istream) (val0 : Z) :
  good i = false ∨ skip_ws (rdbuf i) = EmptyString →
  read_all i val0 = [] ∧
  run_ops debug validate q i val0
  = Some (Returned (initial_state debug q)).
Proof.
  intros Hi.
  assert (good (extract_int i val0).1 = false) as Hng.
  { unfold extract_int. destruct (good i) eqn:Hg; cbn [negb].
    - destruct Hi as [? | ->]; [done|]. reflexivity.
    - unfold good. cbn. by rewrite orb_true_r. }
  assert (read_all i val0 = []) as Hr
    by (by rewrite read_all_unfold, Hng).
  split; [done|]. by rewrite run_ops_replay, Hr.
Qed.

Lemma nothing_to_read_witness :
  read_all (stream_of ("  " ++ newline ++ " ")) 0 = [] ∧
  run_ops false true (pfp.empty_tree, empty_heap)
    (stream_of ("  " ++ newline ++ " ")) 0
  = Some (Returned (initial_state false (pfp.empty_tree, empty_heap))).
Proof.
  apply (nothing_to_read false true (pfp.empty_tree, empty_heap)
           (stream_of ("  " ++ newline ++ " ")) 0).
  right. reflexivity.
Defined.

End reading_bounds.

Section without_validation.
Context {Q : Type} `{QueryStructure Q}.
Variable debug : bool.

Lemma loop_body_no_validation v (st : state Q) :
  ∃ st' lines,
    loop_body debug false v st = Next st' ∧
    cerr st' = cerr st ∧ cout st' = cout st ++ lines ∧
    us st' = us st.
Proof.
  unfold loop_body, do_count.
  destruct (v >=? 0), (insert st), debug; cbn;
    eexists; eexists; (split; [reflexivity|]); cbn;
    repeat split; try reflexivity; by rewrite ?app_nil_r.
Qed.

Lemma replay_no_validation vs (st : state Q) :
  ∃ st' lines,
    replay debug false vs st = Returned st' ∧
    cerr st' = cerr st ∧ cout st' = cout st ++ lines ∧
    us st' = us st.
Proof.
  revert st. induction vs as [|v vs IH]; intros st.
  - exists st, []. by rewrite app_nil_r.
  - cbn [replay].
    destruct (loop_body_no_validation v st)
      as (st1 & l1 & -> & He1 & Ho1 & Hu1).
    destruct (IH st1) as (st' & l2 & Hr & He2 & Ho2 & Hu2).
    exists st', (l1 ++ l2). rewrite Hr, He2, He1, Ho2, Ho1, Hu2, Hu1.
    by rewrite app_assoc.
Qed.

(** X3.  Without validation [run_ops] always returns: it never calls
    [exit], writes nothing to [std::cerr], and leaves the reference set
    empty; the process ends with status 0. *)
Theorem run_without_validation_returns (q : Q) (i : istream) (val0 : Z) :
  ∃ st,
    run_ops debug false q i val0 = Some (Returned st) ∧
    exit_status (Returned st) = 0 ∧
    cerr st = [] ∧ us st = ∅.
Proof.
  destruct (replay_no_validation (read_all i val0) (initial_state debug q))
    as (st & lines & Hr & He & _ & Hu).
  exists st. by rewrite run_ops_replay, Hr.
Qed.

End without_validation.

(** ** Printing and reading back *)

Section round_trip.
Import Decimal DecimalString.
















(** *** Numbers that do not fit *)











End round_trip.

(** ** Runs that cannot be told apart *)

Section simulation.
Context {Q1 Q2 : Type} `{QueryStructure Q1} `{QueryStructure Q2}.
Variable R : Q1 → Q2 → Prop.
Hypothesis R_count : ∀ v q1 q2, R q1 q2 → qs_count v q1 = qs_count v q2.
Hypothesis R_insert :
  ∀ v q1 q2, R q1 q2 → R (qs_insert v q1) (qs_insert v q2).
Variables debug validate : bool.

Lemma loop_body_alike v st1 st2 :
  alike R st1 st2 →
  match loop_body debug validate v st1, loop_body debug validate v st2 with
  | Next st1', Next st2' => alike R st1' st2'
  | Exit c1 st1', Exit c2 st2' => c1 = c2 ∧ alike R st1' st2'
  | _, _ => False
  end.
Proof.
  destruct st1 as [q1 u1 m1 o1 e1 c1], st2 as [q2 u2 m2 o2 e2 c2].
  intros (HR & Hu & Hm & Ho & He & Hc). cbn in Hu, Hm, Ho, He, Hc, HR.
  subst u2 m2 o2 e2 c2.
  unfold loop_body, validate_query, do_count, do_insert, do_shadow_insert.
  destruct (v >=? 0), m1, validate, debug;
    repeat (cbn [qs us insert cout cerr calls log_call write_cout
                 write_cerr set_insert];
            rewrite ?(R_count v q1 q2 HR));
    try destruct (negb (Z.b2z (negb (qs_count v q2 =? 0))
                        =? unordered_set_count v u1));
    repeat (cbn [qs us insert cout cerr calls log_call write_cout
                 write_cerr set_insert];
            rewrite ?(R_count v q1 q2 HR));
    repeat split; try done; by apply R_insert.
Qed.

Lemma replay_alike vs st1 st2 :
  alike R st1 st2 →
  observe (replay debug validate vs st1)
  = observe (replay debug validate vs st2).
Proof.
  revert st1 st2. induction vs as [|v vs IH]; intros st1 st2 Ha.
  - destruct Ha as (_ & _ & Hm & Ho & He & Hc).
    unfold observe. cbn. by rewrite Hm, Ho, He, Hc.
  - cbn [replay]. pose proof (loop_body_alike v st1 st2 Ha) as Hb.
    destruct (loop_body debug validate v st1) as [st1'|c1 st1'],
             (loop_body debug validate v st2) as [st2'|c2 st2'];
      try done.
    + by apply IH.
    + destruct Hb as (-> & _ & _ & Hm & Ho & He & Hc).
      unfold observe. cbn. by rewrite Hm, Ho, He, Hc.
Qed.

Lemma run_ops_alike q1 q2 i val0 :
  R q1 q2 →
  option_map observe (run_ops debug validate q1 i val0)
  = option_map observe (run_ops debug validate q2 i val0).
Proof.
  intros HR. rewrite !run_ops_replay. cbn [option_map]. f_equal.
  apply replay_alike. by repeat split.
Qed.

End simulation.

Section tree_against_reference.

Lemma holds_count v th s : holds th s → qs_count v th = qs_count v s.
Proof.
  intros [Hb Hv]. cbn [qs_count binary_tree_qs unordered_set_qs].
  rewrite count_spec by done. unfold unordered_set_count.
  destruct (decide (v ∈ s)) as [Hin|Hin].
  - by rewrite bool_decide_eq_true_2 by by apply Hv.
  - rewrite bool_decide_eq_false_2; [done|]. by rewrite Hv.
Qed.

Lemma holds_insert v th s :
  holds th s → holds (qs_insert v th) (qs_insert v s).
Proof.
  intros [Hb Hv]. cbn [qs_insert binary_tree_qs unordered_set_qs]. split.
  - by apply insert_bst.
  - intros w. rewrite insert_values, Hv. unfold unordered_set_insert.
    set_solver.
Qed.

(** X5.  On every stream and with every combination of the debug and
    validate flags, a run on a fresh [binary_tree] cannot be told from a
    run on a fresh [std::unordered_set]: the same exit status, the same
    lines on [std::cout] and [std::cerr], the same member calls and the
    same final mode. *)
Theorem binary_tree_runs_like_unordered_set
    (debug validate : bool) (h : heap) (i : istream) (val0 : Z) :
  option_map observe (run_ops debug validate (pfp.empty_tree, h) i val0)
  = option_map observe (run_ops debug validate (∅ : gset Z) i val0).
Proof.
  apply (run_ops_alike holds holds_count holds_insert).
  split; [done|]. intros v. cbn. set_solver.
Qed.

End tree_against_reference.

Section validation_observes.
Context {Q : Type} `{QueryStructure Q}.
Variable debug : bool.

Lemma loop_body_same_run v (st1 st0 : state Q) :
  same_run st1 st0 →
  match loop_body debug true v st1 with
  | Next st1' =>
      ∃ st0', loop_body debug false v st0 = Next st0' ∧ same_run st1' st0'
  | Exit status st1' => status = 1 ∧ cout st1' = cout st1
  end.
Proof.
  destruct st1 as [q1 u1 m1 o1 e1 c1], st0 as [q0 u0 m0 o0 e0 c0].
  intros (Hq & Hm & Ho). cbn in Hq, Hm, Ho. subst q0 m0 o0.
  unfold loop_body, validate_query, do_count, do_insert, do_shadow_insert.
  destruct (v >=? 0), m1, debug;
    cbn [qs us insert cout cerr calls log_call write_cout write_cerr
         set_insert];
    try destruct (negb (Z.b2z (negb (qs_count v q1 =? 0))
                        =? unordered_set_count v u1));
    cbn [qs us insert cout cerr calls log_call write_cout write_cerr
         set_insert];
    try (by split); eexists; (split; [reflexivity|]); by repeat split.
Qed.

Lemma replay_same_run vs (st1 st0 : state Q) :
  same_run st1 st0 →
  ∃ st0' rest,
    replay debug false vs st0 = Returned st0' ∧
    cout st0' = cout (final_state (replay debug true vs st1)) ++ rest ∧
    match replay debug true vs st1 with
    | Returned st1' => rest = [] ∧ same_run st1' st0'
    | Exited status _ => status = 1
    end.
Proof.
  revert st1 st0. induction vs as [|v vs IH]; intros st1 st0 Hs.
  - exists st0, []. cbn. rewrite app_nil_r. destruct Hs as (? & ? & ?).
    by repeat split.
  - cbn [replay]. pose proof (loop_body_same_run v st1 st0 Hs) as Hb.
    destruct (loop_body debug true v st1) as [st1'|c st1'].
    + destruct Hb as (st0' & -> & Hs'). by apply IH.
    + destruct Hb as (-> & Ho).
      destruct (replay_no_validation debug (v :: vs) st0)
        as (st0' & lines & Hr & _ & Hout & _).
      cbn [replay] in Hr. exists st0', lines. cbn [final_state].
      split; [done|]. split; [|done].
      destruct Hs as (_ & _ & Hc). by rewrite Hout, Ho, Hc.
Qed.

(** X6.  Validation only observes.  The lines a validated run writes to
    [std::cout] are a prefix of those the same run writes without
    validation, and all of them when the validated run returns; then the
    structure under test and the mode end up the same too.  A validated
    run that does not return ends with status 1. *)
Theorem validation_only_observes (q : Q) (i : istream) (val0 : Z) :
  ∃ o1 st0 rest,
    run_ops debug true q i val0 = Some o1 ∧
    run_ops debug false q i val0 = Some (Returned st0) ∧
    cout st0 = cout (final_state o1) ++ rest ∧
    match o1 with
    | Returned st1 =>
        rest = [] ∧ qs st1 = qs st0 ∧ insert st1 = insert st0
    | Exited status _ => status = 1
    end.
Proof.
  destruct (replay_same_run (read_all i val0)
              (initial_state debug q) (initial_state debug q))
    as (st0 & rest & Hr & Ho & Hm); [done|].
  exists (replay debug true (read_all i val0) (initial_state debug q)),
    st0, rest.
  rewrite !run_ops_replay, Hr. split; [done|]. split; [done|].
  split; [done|].
  destruct (replay debug true _ _); [|done].
  destruct Hm as (-> & Hq & Hi & _). done.
Qed.

End validation_observes.

(** * Further properties of the tree *)

Section tree_shape.
Import pfp.

(** Inserting a value above all the stored ones into a tree without left
    children hangs it below the last node. *)
Lemma node_insert_right_spine x n h :
  (∀ m, m ∈ nodes n → left_ m = None) →
  (∀ y, y ∈ values n → y < x) →
  height (node_insert x n h).1 = S (height n) ∧
  (∀ m, m ∈ nodes (node_insert x n h).1 → left_ m = None).
Proof.
  induction n as [a v l r IHl IHr] using node_induction.
  intros Hspine Hlt.
  assert (l = None) as -> by (apply (Hspine (Node a v l r)); by left).
  assert (v < x) as Hv by (apply Hlt; rewrite values_Node; set_solver).
  cbn [node_insert].
  destruct (Z.eqb_spec v x) as [?|_]; [lia|].
  destruct (Z.gtb_spec x v) as [_|?]; [|lia].
  destruct r as [c|]; cbn [on_child] in *.
  - destruct IHr as [Hh Hs].
    { intros m Hm. apply Hspine. cbn. right. set_solver. }
    { intros y Hy. apply Hlt. rewrite values_Node. cbn. set_solver. }
    destruct (node_insert x c h) as [c' h']. cbn [fst] in *. split.
    + cbn [height child_depth]. rewrite Hh. lia.
    + intros m [->|Hm]%elem_of_cons; [done|]. cbn in Hm. by apply Hs.
  - cbn [new_node operator_new fst]. split; [done|].
    intros m Hm. cbn in Hm. set_solver.
Qed.

(** The mirror image, for a value below all the stored ones. *)
Lemma node_insert_left_spine x n h :
  (∀ m, m ∈ nodes n → right_ m = None) →
  (∀ y, y ∈ values n → x < y) →
  height (node_insert x n h).1 = S (height n) ∧
  (∀ m, m ∈ nodes (node_insert x n h).1 → right_ m = None).
Proof.
  induction n as [a v l r IHl IHr] using node_induction.
  intros Hspine Hlt.
  assert (r = None) as -> by (apply (Hspine (Node a v l r)); by left).
  assert (x < v) as Hv by (apply Hlt; rewrite values_Node; set_solver).
  cbn [node_insert].
  destruct (Z.eqb_spec v x) as [?|_]; [lia|].
  destruct (Z.gtb_spec x v) as [?|_]; [lia|].
  destruct l as [c|]; cbn [on_child] in *.
  - destruct IHl as [Hh Hs].
    { intros m Hm. apply Hspine. cbn. right. set_solver. }
    { intros y Hy. apply Hlt. rewrite values_Node. cbn. set_solver. }
    destruct (node_insert x c h) as [c' h']. cbn [fst] in *. split.
    + cbn [height child_depth]. rewrite Hh. lia.
    + intros m [->|Hm]%elem_of_cons; [done|]. cbn in Hm.
      rewrite app_nil_r in Hm. by apply Hs.
  - cbn [new_node operator_new fst]. split; [done|].
    intros m Hm. cbn in Hm. set_solver.
Qed.

Lemma build_ascending xs h :
  StronglySorted Z.lt xs →
  tree_height (build xs h).1 = length xs ∧
  (∀ m, m ∈ tree_nodes (build xs h).1 → left_ m = None).
Proof.
  induction xs as [|x xs IH] using rev_ind; intros Hs.
  - split; [done|]. by intros m Hm%elem_of_nil.
  - apply StronglySorted_app in Hs as (Hlt & Hs & _).
    destruct (IH Hs) as [Hh Hsp]. rewrite build_snoc, length_app.
    pose proof (build_values xs h) as Hv.
    unfold insert, tree_height, tree_nodes, tree_values in *.
    destruct (root (build xs h).1) as [r|]; cbn [child child_depth] in *.
    + destruct (node_insert_right_spine x r (build xs h).2 Hsp) as [Hh' Hs'].
      { intros y Hy%Hv. apply Hlt; [done | by left]. }
      destruct (node_insert x r (build xs h).2) as [r' h'].
      cbn [fst root child child_depth] in *. split; [|done].
      rewrite Hh', Hh. cbn. lia.
    + cbn. split; [rewrite <- Hh; cbn; lia|].
      intros m Hm. set_solver.
Qed.

Lemma build_descending xs h :
  StronglySorted Z.gt xs →
  tree_height (build xs h).1 = length xs ∧
  (∀ m, m ∈ tree_nodes (build xs h).1 → right_ m = None).
Proof.
  induction xs as [|x xs IH] using rev_ind; intros Hs.
  - split; [done|]. by intros m Hm%elem_of_nil.
  - apply StronglySorted_app in Hs as (Hlt & Hs & _).
    destruct (IH Hs) as [Hh Hsp]. rewrite build_snoc, length_app.
    pose proof (build_values xs h) as Hv.
    unfold insert, tree_height, tree_nodes, tree_values in *.
    destruct (root (build xs h).1) as [r|]; cbn [child child_depth] in *.
    + destruct (node_insert_left_spine x r (build xs h).2 Hsp) as [Hh' Hs'].
      { intros y Hy%Hv. apply Z.gt_lt, Hlt; [done | by left]. }
      destruct (node_insert x r (build xs h).2) as [r' h'].
      cbn [fst root child child_depth] in *. split; [|done].
      rewrite Hh', Hh. cbn. lia.
    + cbn. split; [rewrite <- Hh; cbn; lia|].
      intros m Hm. set_solver.
Qed.

(** X7.  There is no rebalancing: values inserted in strictly increasing
    or strictly decreasing order give a tree that is a list, as high as
    there are values, in which no node has two children. *)
Theorem sorted_input_degenerates (xs : list Z) (h : heap) :
  StronglySorted Z.lt xs ∨ StronglySorted Z.gt xs →
  tree_height (build xs h).1 = length xs ∧
  (∀ m, m ∈ tree_nodes (build xs h).1 →
        left_ m = None ∨ right_ m = None).
Proof.
  intros [Hs|Hs].
  - destruct (build_ascending xs h Hs) as [Hh Hsp]. split; [done|].
    intros m Hm. left. by apply Hsp.
  - destruct (build_descending xs h Hs) as [Hh Hsp]. split; [done|].
    intros m Hm. right. by apply Hsp.
Qed.

Lemma sorted_input_degenerates_witness :
  tree_height (build [1; 2; 3; 5; 8] empty_heap).1 = 5%nat ∧
  (∀ m, m ∈ tree_nodes (build [1; 2; 3; 5; 8] empty_heap).1 →
        left_ m = None ∨ right_ m = None).
Proof.
  apply (sorted_input_degenerates [1; 2; 3; 5; 8] empty_heap).
  left. repeat constructor; lia.
Defined.

(** A value that is not stored costs exactly one [new]. *)
Lemma node_insert_absent x n h :
  x ∉ values n →
  (node_insert x n h).2 = (operator_new h).2 ∧
  length (values (node_insert x n h).1) = S (length (values n)).
Proof.
  induction n as [a v l r IHl IHr] using node_induction.
  rewrite values_Node. intros Hx. cbn [node_insert].
  destruct (Z.eqb_spec v x) as [->|_]; [set_solver|].
  destruct (Z.gtb_spec x v) as [_|_].
  - destruct r as [c|]; cbn [on_child child] in *.
    + destruct IHr as [Hh Hl]; [set_solver|].
      destruct (node_insert x c h) as [c' h']. cbn [fst snd] in *.
      split; [done|]. rewrite values_Node. cbn [child].
      rewrite !length_app. cbn [length]. lia.
    + cbn [new_node operator_new fst snd]. split; [done|].
      rewrite values_Node. cbn [child values app].
      rewrite ?length_app. cbn [length]. lia.
  - destruct l as [c|]; cbn [on_child child] in *.
    + destruct IHl as [Hh Hl]; [set_solver|].
      destruct (node_insert x c h) as [c' h']. cbn [fst snd] in *.
      split; [done|]. rewrite values_Node. cbn [child].
      rewrite !length_app. cbn [length]. lia.
    + cbn [new_node operator_new fst snd]. split; [done|].
      rewrite values_Node. cbn [child values app].
      rewrite ?length_app. cbn [length]. lia.
Qed.

Lemma insert_absent x t h :
  x ∉ tree_values t → (insert x t h).2 = (operator_new h).2.
Proof.
  destruct t as [[r|]]; unfold insert, tree_values; cbn [root child].
  - intros Hx. pose proof (node_insert_absent x r h Hx) as [Hh _].
    by destruct (node_insert x r h).
  - done.
Qed.

(** X8.  What an insertion costs.  After any sequence of insertions, one
    more [insert] obtains exactly one block from [new] when the value was
    not inserted before and leaves the free store untouched when it was;
    no insertion ever releases a block. *)
Theorem insert_allocation (xs : list Z) (x : Z) (h : heap) :
  (build (xs ++ [x]) h).2
  = (if bool_decide (x ∈ xs) then (build xs h).2
     else (operator_new (build xs h).2).2) ∧
  deletes (build (xs ++ [x]) h).2 = deletes h.
Proof.
  split.
  - rewrite build_snoc. case_bool_decide as Hx.
    + rewrite insert_present; [done | apply build_bst |].
      by apply build_values.
    + apply insert_absent. by rewrite build_values.
  - by destruct (build_heap (xs ++ [x]) h) as (blocks & (_ & _ & Hd & _) & _).
Qed.

Lemma node_insert_root x n h :
  self (node_insert x n h).1 = self n ∧ val (node_insert x n h).1 = val n.
Proof.
  destruct n as [a v l r]. cbn [node_insert].
  destruct (v =? x); [done|].
  destruct (x >? v).
  - destruct r as [c|]; [by destruct (node_insert x c h) | done].
  - destruct l as [c|]; [by destruct (node_insert x c h) | done].
Qed.

Lemma insert_all_root xs t h r :
  root t = Some r →
  ∃ r', root (insert_all xs (t, h)).1 = Some r' ∧
        self r' = self r ∧ val r' = val r.
Proof.
  revert t h r. induction xs as [|x xs IH]; intros t h r Hr; [by exists r|].
  cbn [insert_all fold_left fst snd]. unfold insert at 2. rewrite Hr.
  pose proof (node_insert_root x r h) as [Hs Hv].
  destruct (node_insert x r h) as [r1 h1]. cbn [fst] in *.
  destruct (IH (BinaryTree (Some r1)) h1 r1 eq_refl) as (r' & Hr' & Hs' & Hv').
  exists r'. split; [exact Hr'|]. split; congruence.
Qed.

(** X9.  The node made by the first insertion stays the root for ever:
    whatever is inserted later, the root holds the first value, at the
    address its block was given. *)
Theorem first_value_stays_at_root (x : Z) (xs : list Z) (h : heap) :
  ∃ r, root (build (x :: xs) h).1 = Some r ∧
       val r = x ∧ self r = (operator_new h).1.
Proof.
  unfold build. cbn [insert_all fold_left fst snd].
  destruct (insert_all_root xs (insert x empty_tree h).1
              (insert x empty_tree h).2
              (Node (operator_new h).1 x None None) eq_refl)
    as (r & Hr & Hs & Hv).
  exists r. split; [|done].
  by destruct (insert x empty_tree h).
Qed.

End tree_shape.

(** * [select_qs] and [main] *)

Section run_results.
Context {Q : Type} `{QueryStructure Q}.
Variables debug validate : bool.

(** [exit] is only called with status 1, and only by validation. *)
Lemma replay_exit_status vs (st : state Q) :
  match replay debug validate vs st with
  | Returned _ => True
  | Exited status _ => status = 1 ∧ validate = true
  end.
Proof.
  revert st. induction vs as [|v vs IH]; intros st; [done|].
  cbn [replay].
  destruct (loop_body_cases debug validate v st)
    as [(st1 & -> & _)|(Hval & Hv & Hm & Hna)]; [apply IH|].
  revert Hna. rewrite Hval. intros Hna.
  by rewrite loop_body_mismatch.
Qed.

Lemma run_ops_exit_status q i val0 :
  match run_ops debug validate q i val0 with
  | Some (Returned _) => True
  | Some (Exited status _) => status = 1 ∧ validate = true
  | None => False
  end.
Proof. rewrite run_ops_replay. apply replay_exit_status. Qed.

Lemma inserted_app cs cs' : inserted (cs ++ cs') = inserted cs ++ inserted cs'.
Proof.
  induction cs as [|[v|v] cs IH]; cbn [inserted app]; by rewrite ?IH.
Qed.

(** The structure under test is only changed by the logged insertions. *)
Lemma loop_body_tracks v (st : state Q) q0 :
  qs st = fold_left (λ q x, qs_insert x q) (inserted (calls st)) q0 →
  match loop_body debug validate v st with
  | Next st' | Exit _ st' =>
      qs st' = fold_left (λ q x, qs_insert x q) (inserted (calls st')) q0
  end.
Proof.
  destruct st as [q u m o e c]. cbn [qs calls]. intros ->.
  unfold loop_body, validate_query, do_count, do_insert, do_shadow_insert.
  destruct (v >=? 0), m, validate, debug;
    cbn [qs us insert cout cerr calls log_call write_cout write_cerr
         set_insert];
    try destruct (negb (Z.b2z (negb (_ =? 0)) =? unordered_set_count v u));
    cbn [qs us insert cout cerr calls log_call write_cout write_cerr
         set_insert];
    rewrite ?inserted_app, ?fold_left_app; cbn [inserted fold_left];
    by rewrite ?app_nil_r.
Qed.

Lemma replay_tracks vs (st : state Q) q0 :
  qs st = fold_left (λ q x, qs_insert x q) (inserted (calls st)) q0 →
  qs (final_state (replay debug validate vs st))
  = fold_left (λ q x, qs_insert x q)
      (inserted (calls (final_state (replay debug validate vs st)))) q0.
Proof.
  revert st. induction vs as [|v vs IH]; intros st Ht; [done|].
  cbn [replay]. pose proof (loop_body_tracks v st q0 Ht) as Hb.
  destruct (loop_body debug validate v st); [by apply IH | done].
Qed.


End run_results.

Section tree_runs.
Variables debug verify : bool.

(** A run on a fresh tree returns, with the tree built by the logged
    insertions. *)
Lemma tree_run_returns h i val0 :
  ∃ st,
    run_ops debug verify (pfp.empty_tree, h) i val0 = Some (Returned st) ∧
    cerr st = [] ∧
    qs st = pfp.build (inserted (calls st)) h.
Proof.
  assert (∃ st, run_ops debug verify (pfp.empty_tree, h) i val0
                = Some (Returned st) ∧ cerr st = []) as (st & Hrun & Herr).
  { destruct verify.
    - apply binary_tree_passes_validation.
    - destruct (replay_no_validation debug (read_all i val0)
                  (initial_state debug (pfp.empty_tree, h)))
        as (st & lines & Hr & He & _).
      exists st. by rewrite run_ops_replay, Hr. }
  exists st. split; [done|]. split; [done|].
  pose proof (replay_tracks debug verify (read_all i val0)
                (initial_state debug (pfp.empty_tree, h))
                (pfp.empty_tree, h) eq_refl) as Ht.
  rewrite run_ops_replay in Hrun. injection Hrun as Hrun.
  by rewrite Hrun in Ht.
Qed.

(** A run on a fresh [std::unordered_set] returns as well, with the same
    output as the run on a fresh tree. *)
Lemma set_run_returns h i val0 :
  ∃ st_t st_s,
    run_ops debug verify (pfp.empty_tree, h) i val0 = Some (Returned st_t) ∧
    run_ops debug verify (∅ : gset Z) i val0 = Some (Returned st_s) ∧
    cout st_s = cout st_t ∧ cerr st_s = [] ∧ calls st_s = calls st_t.
Proof.
  destruct (tree_run_returns h i val0) as (st_t & Ht & Herr & _).
  pose proof (run_ops_alike holds holds_count holds_insert debug verify
                (pfp.empty_tree, h) ∅ i val0) as Hobs.
  pose proof (run_ops_exit_status debug verify (∅ : gset Z) i val0) as Hex.
  rewrite Ht in Hobs.
  destruct (run_ops debug verify (∅ : gset Z) i val0) as [[st_s|c st_s]|];
    [|exfalso..].
  - exists st_t, st_s. cbn in Hobs.
    assert (holds (pfp.empty_tree, h) ∅) as Hh
      by (split; [done|]; intros v; cbn; set_solver).
    specialize (Hobs Hh). injection Hobs as Ho He Hc Hm.
    repeat split; congruence.
  - assert (holds (pfp.empty_tree, h) ∅) as Hh
      by (split; [done|]; intros v; cbn; set_solver).
    specialize (Hobs Hh). cbn in Hobs. injection Hobs as Hs.
    destruct Hex as [-> _]. discriminate Hs.
  - done.
Qed.

End tree_runs.

Section tree_teardown.
Import pfp.

(** Destroying a tree built by insertions gives back all its blocks. *)
Lemma destroy_build xs h :
  ∃ blocks released h',
    allocated h (build xs h).2 blocks ∧
    length blocks = length (remove_dups xs) ∧
    destroy (build xs h).1 (build xs h).2 = Some h' ∧
    news h' = news h ++ blocks ∧
    deletes h' = deletes h ++ released ∧
    released ≡ₚ blocks ∧
    live h' = live h.
Proof.
  destruct (build_heap xs h) as (blocks & Ha & Hp & Hlen).
  assert (length blocks = length (remove_dups xs)) as Hn.
  { rewrite <- Hlen. apply Permutation_length, NoDup_Permutation.
    - apply build_NoDup.
    - apply NoDup_remove_dups.
    - intros y. by rewrite build_values, elem_of_remove_dups. }
  pose proof Ha as (Hl & Hnews & Hd & Hnd & Hfresh).
  unfold destroy, tree_addrs in *.
  destruct (root (build xs h).1) as [r|]; cbn [child] in *.
  - exists blocks, (addrs r). eexists.
    split; [done|]. split; [done|].
    split; [apply delete_node_spec|].
    + by rewrite Hp.
    + intros a Hin. rewrite Hl, elem_of_union, elem_of_list_to_set, <- Hp.
      by left.
    + cbn [deletes live news]. rewrite Hd.
      split; [done|]. split; [done|]. split; [done|].
      rewrite Hl. apply set_eq. intros a.
      rewrite elem_of_difference, elem_of_union, !elem_of_list_to_set, Hp.
      specialize (Hfresh a). tauto.
  - apply Permutation_nil_l in Hp. subst blocks.
    exists [], [], (build xs h).2.
    split; [done|]. split; [done|]. split; [done|]. split; [done|].
    split; [by rewrite app_nil_r|]. split; [done|].
    rewrite Hl. cbn. by rewrite union_empty_l_L.
Qed.

End tree_teardown.

Section select_qs_properties.
Context {vs bv : Type}.
Variables (vs_qs : QueryStructure vs) (bv_qs : QueryStructure bv).
Variables (vs_new : vs) (bv_new : Z → bv).
Variables debug verify : bool.

(** X10.  Asked for [std::set] (type 1), [std::unordered_set] (type 2)
    or the binary tree (type 3), [select_qs] always returns, also with
    validation on, and writes to [std::cout] the same lines for the three
    of them: those of the run on [std::unordered_set].  To [std::cerr]
    it writes only the line of debug mode that names the structure. *)
Theorem select_qs_standard_types
    (type limit : Z) (separate_queries : bool) (i : istream) (val0 : Z)
    (w : world) :
  type = 1 ∨ type = 2 ∨ type = 3 →
  ∃ st w',
    run_ops debug verify (∅ : gset Z) i val0 = Some (Returned st) ∧
    select_qs vs_qs bv_qs vs_new bv_new debug verify
      type limit separate_queries i val0 w = Some (returned w') ∧
    w_cout w' = w_cout w ++ cout st ∧
    w_cerr w'
    = w_cerr w
        ++ (if debug
            then [if type =? 1 then "Using std::set"%string
                  else if type =? 2 then "Using std::unordered_set"%string
                  else "Using unbalanced binary tree"%string]
            else []).
Proof.
  intros Htype.
  destruct (set_run_returns debug verify
              (w_heap (if debug
                       then write_err "Using unbalanced binary tree" w
                       else w)) i val0)
    as (st_t & st_s & Ht & Hs & Hout & Herr & _).
  destruct (tree_run_returns debug verify
              (w_heap (if debug
                       then write_err "Using unbalanced binary tree" w
                       else w)) i val0)
    as (st_t' & Ht' & Herr_t & Hqs).
  rewrite Ht in Ht'. injection Ht' as <-.
  exists st_s. unfold select_qs, choose_type, run_on, std_set_qs.
  destruct Htype as [-> | [-> | ->]]; cbn [Z.eqb Pos.eqb].
  - rewrite Hs. eexists. split; [done|]. split; [reflexivity|].
    cbn [after_run w_cout w_cerr]. rewrite Herr, app_nil_r.
    destruct debug; cbn [write_err w_cout w_cerr]; by rewrite ?app_nil_r.
  - rewrite Hs. eexists. split; [done|]. split; [reflexivity|].
    cbn [after_run w_cout w_cerr]. rewrite Herr, app_nil_r.
    destruct debug; cbn [write_err w_cout w_cerr]; by rewrite ?app_nil_r.
  - rewrite Ht.
    destruct (destroy_build (inserted (calls st_t))
                (w_heap (if debug
                         then write_err "Using unbalanced binary tree" w
                         else w)))
      as (blocks & released & h' & _ & _ & Hd & _).
    rewrite <- Hqs in Hd. rewrite Hd.
    eexists. split; [done|]. split; [reflexivity|].
    cbn [after_run w_cout w_cerr]. rewrite Herr_t, app_nil_r, Hout.
    destruct debug; cbn [write_err w_cout w_cerr]; by rewrite ?app_nil_r.
Qed.

(** X11.  With the binary tree, [select_qs] gives back every node: when
    it returns, the blocks released are the blocks obtained during the
    run, each of them once, one for each distinct value inserted, and
    the live blocks are those from before the call. *)
Theorem select_qs_tree_releases_its_nodes
    (limit : Z) (separate_queries : bool) (i : istream) (val0 : Z)
    (w : world) :
  ∃ st w' blocks released,
    run_ops debug verify (∅ : gset Z) i val0 = Some (Returned st) ∧
    select_qs vs_qs bv_qs vs_new bv_new debug verify
      3 limit separate_queries i val0 w = Some (returned w') ∧
    news (w_heap w') = news (w_heap w) ++ blocks ∧
    deletes (w_heap w') = deletes (w_heap w) ++ released ∧
    released ≡ₚ blocks ∧ NoDup blocks ∧
    length blocks = length (remove_dups (inserted (calls st))) ∧
    live (w_heap w') = live (w_heap w).
Proof.
  assert (w_heap (if debug
                  then write_err "Using unbalanced binary tree" w
                  else w) = w_heap w) as Hw by by destruct debug.
  destruct (set_run_returns debug verify (w_heap w) i val0)
    as (st_t & st_s & Ht & Hs & _ & _ & Hcalls).
  destruct (tree_run_returns debug verify (w_heap w) i val0)
    as (st_t' & Ht' & _ & Hqs).
  rewrite Ht in Ht'. injection Ht' as <-.
  destruct (destroy_build (inserted (calls st_t)) (w_heap w))
    as (blocks & released & h' & Ha & Hlen & Hd & Hn & Hdel & Hp & Hl).
  rewrite <- Hqs in Hd.
  exists st_s. eexists. exists blocks, released.
  split; [done|].
  unfold select_qs, choose_type. cbn [Z.eqb Pos.eqb].
  rewrite Hw, Ht, Hd. split; [reflexivity|].
  cbn [after_run w_heap]. rewrite Hcalls.
  destruct Ha as (_ & _ & _ & Hnd & _). by repeat split.
Qed.


(** [exit] leaves [select_qs] only with status 1 and in validation. *)
Lemma select_qs_exit_status type limit separate_queries i val0 w :
  match select_qs vs_qs bv_qs vs_new bv_new debug verify
          type limit separate_queries i val0 w with
  | Some (exited status _) => status = 1 ∧ verify = true
  | _ => True
  end.
Proof.
  unfold select_qs, run_on, std_set_qs.
  repeat (destruct (_ =? _)).
  - pose proof (run_ops_exit_status debug verify (∅ : gset Z) i val0) as Hx.
    by destruct (run_ops debug verify (∅ : gset Z) i val0) as [[?|? ?]|].
  - pose proof (run_ops_exit_status debug verify (∅ : gset Z) i val0) as Hx.
    by destruct (run_ops debug verify (∅ : gset Z) i val0) as [[?|? ?]|].
  - destruct (tree_run_returns debug verify
                (w_heap (if debug
                         then write_err "Using unbalanced binary tree" w
                         else w)) i val0) as (st & -> & _).
    by destruct (pfp.destroy _ _).
  - pose proof (run_ops_exit_status debug verify vs_new i val0) as Hx.
    by destruct (run_ops debug verify vs_new i val0) as [[?|? ?]|].
  - pose proof (run_ops_exit_status debug verify (bv_new limit) i val0) as Hx.
    by destruct (run_ops debug verify (bv_new limit) i val0) as [[?|? ?]|].
Qed.

End select_qs_properties.

Lemma select_qs_standard_types_witness :
  ∃ st w',
    run_ops false true (∅ : gset Z) (stream_of "5 3 -1 3 4 ") 0
    = Some (Returned st) ∧
    select_qs forgetful_qs forgetful_qs tt (λ _, tt) false true
      3 100 false (stream_of "5 3 -1 3 4 ") 0 (World [] [] empty_heap)
    = Some (returned w') ∧
    w_cout w' = [] ++ cout st ∧
    w_cerr w' = [] ++ [].
Proof.
  destruct (select_qs_standard_types forgetful_qs forgetful_qs tt (λ _, tt)
              false true 3 100 false (stream_of "5 3 -1 3 4 ") 0
              (World [] [] empty_heap)) as (st & w' & Hw).
  - right. right. reflexivity.
  - exists st, w'. exact Hw.
Defined.

Section command_line.

Lemma list_ind2 {A} (P : list A → Prop) :
  P [] → (∀ a, P [a]) → (∀ a b l, P l → P (b :: l) → P (a :: b :: l)) →
  ∀ l, P l.
Proof.
  intros Hnil Hone Hstep l.
  assert (P l ∧ ∀ a, P (a :: l)) as [Hl _]; [|exact Hl].
  induction l as [|b l [IH1 IH2]]; [by split|].
  split; [apply IH2|]. intros a. by apply Hstep.
Qed.

(** The loop goes through the command line from left to right. *)
Lemma parse_args_app pre rest i o o' :
  parse_args i pre o = Parsed o' →
  parse_args i (pre ++ rest) o = parse_args (i + length pre) rest o'.
Proof.
  revert i o. induction pre as [|a|a b pre IH1 IH2] using list_ind2;
    intros i o.
  - intros [= ->]. cbn. by rewrite Nat.add_0_r.
  - cbn [parse_args app length].
    repeat (destruct (String.eqb a _)); try done;
      intros [= <-]; by rewrite ?Nat.add_1_r.
  - cbn [length app].
    remember (b :: pre) as l1 eqn:E1.
    remember (b :: pre ++ rest) as l2 eqn:E2.
    cbn [parse_args].
    destruct (String.eqb a "-l").
    { subst l1 l2. destruct (stoull b); [|done]. intros Hp.
      rewrite (IH1 _ _ Hp). f_equal. lia. }
    destruct (String.eqb a "-s").
    { subst l1 l2. intros Hp. rewrite app_comm_cons, (IH2 _ _ Hp).
      cbn [length]. f_equal. lia. }
    destruct (String.eqb a "-t").
    { subst l1 l2. destruct (stoi b); [|done]. intros Hp.
      rewrite (IH1 _ _ Hp). f_equal. lia. }
    destruct (String.eqb a "-v").
    { subst l1 l2. intros Hp. rewrite app_comm_cons, (IH2 _ _ Hp).
      cbn [length]. f_equal. lia. }
    destruct (String.eqb a "-h"); [done|].
    destruct (String.eqb a "-d").
    { subst l1 l2. intros Hp. rewrite app_comm_cons, (IH2 _ _ Hp).
      cbn [length]. f_equal. lia. }
    subst l1 l2. intros Hp. rewrite app_comm_cons, (IH2 _ _ Hp).
    cbn [length]. f_equal. lia.
Qed.

(** Validation is only switched on by [-v]. *)
Lemma parse_args_verify rest i o o' :
  parse_args i rest o = Parsed o' →
  verify o' = true → verify o = true ∨ In "-v"%string rest.
Proof.
  revert i o. induction rest as [|a|a b rest IH1 IH2] using list_ind2;
    intros i o.
  - intros [= ->]. by left.
  - cbn [parse_args].
    destruct (String.eqb_spec a "-l"); [done|].
    destruct (String.eqb_spec a "-s"); [intros [= <-]; by left|].
    destruct (String.eqb_spec a "-t"); [done|].
    destruct (String.eqb_spec a "-v");
      [intros _ _; right; left; by subst|].
    destruct (String.eqb_spec a "-h"); [done|].
    destruct (String.eqb_spec a "-d"); intros [= <-]; by left.
  - remember (b :: rest) as l1 eqn:E1. cbn [parse_args].
    assert (∀ P : Prop, In "-v"%string l1 → P ∨ In "-v"%string (a :: l1))
      as Hin by (intros P Hi; right; by right).
    assert (∀ P : Prop, In "-v"%string rest
                        → P ∨ In "-v"%string (a :: l1))
      as Hin' by (intros P Hi; right; subst l1; by do 2 right).
    destruct (String.eqb_spec a "-l").
    { subst l1. destruct (stoull b); [|done]. intros Hp Hv.
      destruct (IH1 _ _ Hp Hv) as [?|?]; [by left | by apply Hin']. }
    destruct (String.eqb_spec a "-s").
    { subst l1. intros Hp Hv. destruct (IH2 _ _ Hp Hv) as [?|?];
        [by left | by apply Hin]. }
    destruct (String.eqb_spec a "-t").
    { subst l1. destruct (stoi b); [|done]. intros Hp Hv.
      destruct (IH1 _ _ Hp Hv) as [?|?]; [by left | by apply Hin']. }
    destruct (String.eqb_spec a "-v");
      [intros _ _; right; left; by subst|].
    destruct (String.eqb_spec a "-h"); [done|].
    destruct (String.eqb_spec a "-d").
    { subst l1. intros Hp Hv. destruct (IH2 _ _ Hp Hv) as [?|?];
        [by left | by apply Hin]. }
    subst l1. intros Hp Hv. destruct (IH2 _ _ Hp Hv) as [?|?];
      [by left | by apply Hin].
Qed.

End command_line.

Section main_properties.
Context {vs bv : Type}.
Variables (vs_qs : QueryStructure vs) (bv_qs : QueryStructure bv).
Variables (vs_new : vs) (bv_new : Z → bv).

(** X12.  [-h] ends the process once the loop reaches it: the help text
    is written, the status is 0, and neither the arguments after it nor
    any input is looked at. *)
Theorem help_ends_the_process
    (prog : string) (pre post : list string) (o : options)
    (fs : string → option string) (stdin : string) (val0 : Z) (h : heap) :
  parse_args 1 pre defaults = Parsed o →
  main vs_qs bv_qs vs_new bv_new (prog :: pre ++ "-h"%string :: post)
    fs stdin val0 h
  = Ended 0 (World [help_text] [] h).
Proof.
  intros Hp. unfold main. cbn [tail].
  by rewrite (parse_args_app pre ("-h"%string :: post) 1 defaults o Hp).
Qed.

(** X13.  The process ends with status 1 only when [-v] is among the
    arguments; in every other case in which it ends, the status is 0. *)
Theorem exit_status_one_needs_validation
    (argv : list string) (fs : string → option string) (stdin : string)
    (val0 : Z) (h : heap) :
  match main vs_qs bv_qs vs_new bv_new argv fs stdin val0 h with
  | Ended status _ =>
      status = 0 ∨ (status = 1 ∧ In "-v"%string (tail argv))
  | Terminated | Undefined => True
  end.
Proof.
  unfold main.
  destruct (parse_args 1 (tail argv) defaults) as [o| | |] eqn:Hp;
    [|by left|done|done].
  match goal with
  | |- context [select_qs ?a ?b ?c ?d ?e ?f ?g ?k ?l ?m ?n ?w] =>
      pose proof (select_qs_exit_status a b c d e f g k l m n w) as Hx;
      destruct (select_qs a b c d e f g k l m n w) as [[w'|status w']|]
  end; [by left | | done].
  destruct Hx as [-> Hv]. right. split; [done|].
  by destruct (parse_args_verify _ _ _ _ Hp Hv).
Qed.


End main_properties.

Lemma help_ends_the_process_witness :
  main forgetful_qs forgetful_qs tt (λ _, tt)
    (["./query"%string; "-t"%string; "3"%string; "-d"%string]
       ++ "-h"%string :: ["-l"%string])
    (λ _, None) "1 2 3" 0 empty_heap
  = Ended 0 (World [help_text] [] empty_heap).
Proof.
  apply (help_ends_the_process forgetful_qs forgetful_qs tt (λ _, tt)
           "./query" ["-t"%string; "3"%string; "-d"%string] ["-l"%string]
           (Options 3 2147483647 false 0 false true)).
  reflexivity.
Defined.


(** * What the program prints *)

Section expected_output.





End expected_output.

Section missing_operand.
Context {vs bv : Type}.
Variables (vs_qs : QueryStructure vs) (bv_qs : QueryStructure bv).
Variables (vs_new : vs) (bv_new : Z → bv).

(** X16.  [-l] and [-t] take the next argument whatever it is.  When
    there is none, the null pointer that ends [argv] is made a
    [std::string], which is undefined; when it does not begin with a
    number, [stoull] or [stoi] throws and nothing catches the exception.
    In both cases no structure is built and no input is read. *)
Theorem operand_of_l_and_t
    (prog flag : string) (pre : list string) (o : options)
    (fs : string → option string) (stdin : string) (val0 : Z) (h : heap) :
  parse_args 1 pre defaults = Parsed o →
  flag = "-l"%string ∨ flag = "-t"%string →
  main vs_qs bv_qs vs_new bv_new (prog :: pre ++ [flag]) fs stdin val0 h
  = Undefined ∧
  ∀ a post,
    number_prefix a = None →
    main vs_qs bv_qs vs_new bv_new (prog :: pre ++ flag :: a :: post)
      fs stdin val0 h
    = Terminated.
Proof.
  intros Hp Hflag. unfold main. cbn [tail]. split.
  - rewrite (parse_args_app pre [flag] 1 defaults o Hp).
    by destruct Hflag as [-> | ->].
  - intros a post Ha.
    rewrite (parse_args_app pre (flag :: a :: post) 1 defaults o Hp).
    destruct Hflag as [-> | ->]; cbn [parse_args String.eqb Ascii.eqb
      Bool.eqb]; unfold stoull, stoi; by rewrite Ha.
Qed.

End missing_operand.

Lemma operand_of_l_and_t_witness :
  main forgetful_qs forgetful_qs tt (λ _, tt)
    ("./query"%string :: ["-d"%string; "data.txt"%string] ++ ["-t"%string])
    (λ _, None) "1 2 3" 0 empty_heap
  = Undefined ∧
  ∀ a post,
    number_prefix a = None →
    main forgetful_qs forgetful_qs tt (λ _, tt)
      ("./query"%string :: ["-d"%string; "data.txt"%string]
         ++ "-t"%string :: a :: post)
      (λ _, None) "1 2 3" 0 empty_heap
    = Terminated.
Proof.
  apply (operand_of_l_and_t forgetful_qs forgetful_qs tt (λ _, tt)
           "./query" "-t" ["-d"%string; "data.txt"%string]
           (Options 0 2147483647 false 2 false true)).
  - reflexivity.
  - right. reflexivity.
Defined.
